(** * The remote worker of pytest-xdist ([src/xdist/remote.py])

    A shallow embedding of the worker side of the distributed test runner:
    the work queue and the command dispatcher, the steal protocol, the
    deferred next item ([DummyNext]), the main loop with its failure
    handling, the log relay and the serialization of warnings.

    Python objects with mutable attributes become fields of a [world]
    record that every method threads through; a method is a function
    [world → result A * world].  A Python exception is a [Raise] result:
    the state changes made before the exception stay in the world.  Calls
    to the collaborators the module does not own (the channel, the clock,
    the test engine, the logging subsystem) are recorded, in program order,
    in the [trace] of the world; what those collaborators answer is given
    by the [Env] class. *)

From stdpp Require Import base decidable option numbers list strings gmap.

Set Default Proof Using "Type".

(** ** Python values and exceptions *)

(** The fragment of Python values the payloads of this module carry.
    [VObject] is any other object, known only by its identity. *)
#[warnings="-register-all"]
Inductive pyval :=
  | VNone
  | VBool (b : bool)
  | VInt (z : Z)
  | VStr (s : string)
  | VBytes (b : list Byte.byte)
  | VTuple (vs : list pyval)
  | VObject (id : positive).

(** The exception classes the module tells apart.  The first three derive
    from [BaseException] only; every other one derives from [Exception].
    [Failure] is any further subclass of [Exception], [Fatal] any further
    class outside of it. *)
Inductive exn :=
  | KeyboardInterrupt
  | SystemExit
  | GeneratorExit
  | Fatal (name : string)
  | IndexError
  | TypeError
  | AttributeError
  | AssertionError
  | DumpError
  | PicklingError
  | OSError
  | Failure (name : string).

(** [isinstance(e, Exception)] *)
Definition is_Exception (e : exn) : bool :=
  match e with
  | KeyboardInterrupt | SystemExit | GeneratorExit | Fatal _ => false
  | _ => true
  end.

(** [isinstance(e, BaseException)]: every exception. *)
Definition is_BaseException (e : exn) : bool := true.

(** [isinstance(e, DumpError)] *)
Definition is_DumpError (e : exn) : bool :=
  match e with DumpError => true | _ => false end.

(** What a call that may raise gives back. *)
Inductive outcome (A : Type) :=
  | Returns (a : A)
  | Raises (e : exn).
Arguments Returns {A} a.
Arguments Raises {A} e.

(** [l[i]] on a Python list: a negative index counts from the end, an index
    out of range is [None] here and an [IndexError] at the caller. *)
Definition py_getitem {A : Type} (l : list A) (i : Z) : option A :=
  let n := Z.of_nat (length l) in
  if decide (0 ≤ i)%Z then l !! Z.to_nat i
  else if decide (- n ≤ i)%Z then l !! Z.to_nat (n + i)
  else None.

(** ** The data of the protocol *)

(** What the work queue holds: an index into [session.items], or the
    [SHUTDOWN_MARK] object, which is compared by identity. *)
Inductive entry :=
  | Idx (i : Z)
  | SHUTDOWN_MARK.

Global Instance entry_eq_dec : EqDecision entry.
Proof. solve_decision. Defined.

(** The Python value of an attribute that holds [None], an index or the
    mark (the mark is an object of its own). *)
Definition index_value (v : option entry) : pyval :=
  match v with
  | None => VNone
  | Some (Idx i) => VInt i
  | Some SHUTDOWN_MARK => VObject 1
  end.

(** The commands [handle_command] receives.  [EndMarker] is the
    [SHUTDOWN_MARK] object the channel passes when it closes; [Unknown] is
    a command with another name. *)
Inductive command :=
  | EndMarker
  | RunTests (indices : list Z)
  | RunTestsAll
  | Shutdown
  | Steal (indices : list Z)
  | Unknown (name : string).

(** A test item of the engine, as far as the worker looks into it. *)
Record item := Item {
  nodeid : string;
  item_listchain : list string;
}.

(** A test report of the engine. *)
Record report := Report {
  rep_nodeid : string;
  rep_body : pyval;
}.

(** A log record, with the attributes [emit] reads and writes. *)
Record log_record := LogRecord {
  rec_msg : pyval;
  rec_args : pyval;
  rec_exc_info : pyval;
  rec_exc_text : pyval;
  rec_message : pyval;
}.

(** The events sent to the controller: [sendevent(name, **kwargs)] sends
    the pair [(name, kwargs)]; one constructor per name, its arguments are
    the keyword arguments. *)
Inductive event :=
  | runtest_logmessage (record : list Byte.byte)
  | unscheduled (indices : list Z)
  | runtest_need_work
  | exception (exception : list Byte.byte)
  | runtest_protocol_complete (item_index : pyval) (duration : Z)
  | logstart (nodeid : string) (location : pyval)
  | logfinish (nodeid : string) (location : pyval)
  | testreport (data : gmap string pyval).

Definition event_name (ev : event) : string :=
  match ev with
  | runtest_logmessage _ => "runtest_logmessage"
  | unscheduled _ => "unscheduled"
  | runtest_need_work => "runtest_need_work"
  | exception _ => "exception"
  | runtest_protocol_complete _ _ => "runtest_protocol_complete"
  | logstart _ _ => "logstart"
  | logfinish _ _ => "logfinish"
  | testreport _ => "testreport"
  end.

(** The calls the worker makes to its collaborators, with their answers. *)
Inductive action :=
  | Send (ev : event)                (* channel.send((name, kwargs)) *)
  | Get (v : entry)                  (* a blocking torun.get() gave v *)
  | Time (t : Z)                     (* time.time() gave t *)
  | Title (title : string)           (* setproctitle(title) *)
  | Protocol (it : item)             (* hook.pytest_runtest_protocol(item=it, ...) *)
  | HandleError (record : log_record). (* logging.Handler.handleError(record) *)

(** What the engine does while it runs the protocol of one item: the calls
    it makes back into the worker, in order, and how the hook call ends. *)
Inductive engine_call :=
  | call_listchain                                   (* nextitem.listchain() *)
  | call_logstart (nodeid : string) (location : pyval)
  | call_logreport (r : report)
  | call_logfinish (nodeid : string) (location : pyval).

Record protocol_run := ProtocolRun {
  engine_calls : list engine_call;
  engine_raises : option exn;
}.

(** ** The environment *)

(** The collaborators of the worker.  The channel, the clock and the engine
    may answer differently over time: they are functions of the calls made
    so far. *)
Class Env := {
  (** [session.items] *)
  items : list item;
  (** [config.workerinput.get("workerid", "?")] and
      [config.workerinput["testrunuid"]] *)
  workerid : pyval;
  testrunuid : pyval;
  (** [channel.send(msg)]: [None] when the call returns, the exception it
      raises otherwise *)
  channel_send : list action → event → option exn;
  (** [time.time()], in ticks of the clock *)
  time_time : list action → Z;
  (** [config.hook.pytest_runtest_protocol(item=item, nextitem=next)] *)
  hook_pytest_runtest_protocol : list action → item → protocol_run;
  (** [config.hook.pytest_report_to_serializable(config=config, report=report)] *)
  hook_pytest_report_to_serializable : report → gmap string pyval;
  (** [pickle.dumps(sys.exc_info())] for the exception being handled *)
  pickle_dumps_exc_info : exn → outcome (list Byte.byte);
  (** [pickle.dumps(record)] *)
  pickle_dumps_record : log_record → outcome (list Byte.byte);
  (** [logging.Handler.format(record)] *)
  format : log_record → outcome string;
}.

(** ** The state and the monad of methods *)

(** The attributes of one [DummyNext] object. *)
Record dummy_next := DummyNextObj {
  real_next : option item;
  dn_nextitem_index : option entry;
}.

Record world := World {
  (** [self.torun]: the entries of the current queue, oldest first *)
  torun : list entry;
  (** [self.nextitem_index]: [None], an index or the mark *)
  nextitem_index : option entry;
  (** [self.item_index]: absent until [run_one_test] assigns it *)
  item_index : option (option entry);
  (** the [DummyNext] objects created so far, by address *)
  heap : list dummy_next;
  (** the calls made so far, oldest first *)
  trace : list action;
}.

Definition set_torun (q : list entry) (w : world) : world :=
  World q (nextitem_index w) (item_index w) (heap w) (trace w).
Definition set_nextitem_index (v : option entry) (w : world) : world :=
  World (torun w) v (item_index w) (heap w) (trace w).
Definition set_item_index (v : option entry) (w : world) : world :=
  World (torun w) (nextitem_index w) (Some v) (heap w) (trace w).
Definition set_heap (h : list dummy_next) (w : world) : world :=
  World (torun w) (nextitem_index w) (item_index w) h (trace w).
Definition record_action (a : action) (w : world) : world :=
  World (torun w) (nextitem_index w) (item_index w) (heap w) (trace w ++ [a]).

(** How a method ends: it returns, it raises, it waits for ever on an empty
    queue, or the model's loop bound is used up. *)
Inductive result (A : Type) :=
  | Ok (a : A)
  | Raise (e : exn)
  | Blocked
  | OutOfFuel.
Arguments Ok {A} a.
Arguments Raise {A} e.
Arguments Blocked {A}.
Arguments OutOfFuel {A}.

Definition M (A : Type) : Type := world → result A * world.

Global Instance M_ret : MRet M := λ A a w, (Ok a, w).
Global Instance M_bind : MBind M := λ A B f m w,
  match m w with
  | (Ok a, w') => f a w'
  | (Raise e, w') => (Raise e, w')
  | (Blocked, w') => (Blocked, w')
  | (OutOfFuel, w') => (OutOfFuel, w')
  end.

Definition raise {A : Type} (e : exn) : M A := λ w, (Raise e, w).
Definition block {A : Type} : M A := λ w, (Blocked, w).
Definition out_of_fuel {A : Type} : M A := λ w, (OutOfFuel, w).
Definition read {A : Type} (f : world → A) : M A := λ w, (Ok (f w), w).
Definition modify (f : world → world) : M unit := λ w, (Ok tt, f w).
Definition perform (a : action) : M unit := modify (record_action a).

(** [try: body / except C as e: handler], where [catches e] says whether
    [e] is an instance of [C]. *)
Definition try_except {A : Type} (body : M A) (catches : exn → bool)
    (handler : exn → M A) : M A := λ w,
  match body w with
  | (Raise e, w') => if catches e then handler e w' else (Raise e, w')
  | r => r
  end.

(** The result of a call that may raise, as a method. *)
Definition lift_outcome {A : Type} (o : outcome A) : M A :=
  match o with
  | Returns a => mret a
  | Raises e => raise e
  end.

(** ** WorkerInteractor: the queue, the events and the commands *)

Section queue.
Context `{Env}.

(** [_make_queue]: a fresh, empty queue. *)
Definition _make_queue : list entry := [].

(** [self.torun.put(i)] *)
Definition torun_put (i : entry) : M unit :=
  modify (λ w, set_torun (torun w ++ [i]) w).

(** [self.torun.get()]: takes the oldest entry; on an empty queue the
    caller waits, here for ever since no command arrives meanwhile. *)
Definition torun_get : M entry := λ w,
  match torun w with
  | [] => (Blocked, w)
  | v :: q => (Ok v, record_action (Get v) (set_torun q w))
  end.

(** [sendevent]: the local log line is diagnostic only and left out. *)
Definition sendevent (ev : event) : M unit := λ w,
  let w' := record_action (Send ev) w in
  match channel_send (trace w) ev with
  | None => (Ok tt, w')
  | Some e => (Raise e, w')
  end.

Definition send_log (record : list Byte.byte) : M unit :=
  sendevent (runtest_logmessage record).

(** The loop of [steal] over [iter(old_queue_get_nowait_noraise, None)]:
    [get_nowait] on the old queue until it is empty (the [Empty] it raises
    then is suppressed, the [None] returned instead ends the iteration).
    The mark is no member of a set of integers. *)
Fixpoint steal_drain (indices : gset Z) (old_queue : list entry)
    (stolen : list Z) : M (list Z) :=
  match old_queue with
  | [] => mret stolen
  | Idx i :: old_queue' =>
      if decide (i ∈ indices) then steal_drain indices old_queue' (stolen ++ [i])
      else torun_put (Idx i);; steal_drain indices old_queue' stolen
  | SHUTDOWN_MARK :: old_queue' =>
      torun_put SHUTDOWN_MARK;; steal_drain indices old_queue' stolen
  end.

Definition steal (indices : list Z) : M unit :=
  let indices : gset Z := list_to_set indices in
  old_queue ← read torun;
  modify (set_torun _make_queue);;
  stolen ← steal_drain indices old_queue [];
  sendevent (unscheduled stolen).

(** [for i in l: self.torun.put(i)] *)
Fixpoint put_all (l : list Z) : M unit :=
  match l with
  | [] => mret tt
  | i :: l' => torun_put (Idx i);; put_all l'
  end.

Definition handle_command (c : command) : M unit :=
  match c with
  | EndMarker => torun_put SHUTDOWN_MARK
  | RunTests indices => put_all indices
  | RunTestsAll => put_all (Z.of_nat <$> seq 0 (length items))
  | Shutdown => torun_put SHUTDOWN_MARK
  | Steal indices => steal indices
  | Unknown _ => mret tt
  end.

(** [self.session.items[i]] for whatever [self.torun] or an attribute
    holds: the mark and [None] are no indices. *)
Definition items_getitem (i : option entry) : M item :=
  match i with
  | Some (Idx z) =>
      match py_getitem items z with
      | Some it => mret it
      | None => raise IndexError
      end
  | Some SHUTDOWN_MARK | None => raise TypeError
  end.

Definition get_more_work : M (option item * entry) :=
  next ← torun_get;
  match next with
  | Idx _ => next_item ← items_getitem (Some next); mret (Some next_item, next)
  | SHUTDOWN_MARK => mret (None, next)
  end.

End queue.

(** ** DummyNext: the delayed next item *)

Module DummyNext.
Section methods.
Context `{Env}.

(** [DummyNext(parent)]: a new object with both attributes [None]; the
    result is its address. *)
Definition new : M nat := λ w,
  (Ok (length (heap w)), set_heap (heap w ++ [DummyNextObj None None]) w).

(** The attributes of the object at [self]. *)
Definition attrs (self : nat) : M dummy_next := λ w,
  match heap w !! self with
  | Some d => (Ok d, w)
  | None => (Raise AttributeError, w)
  end.

(** An index and the mark both differ from [None] under [==]. *)
Definition _fetch (self : nat) : M unit :=
  d ← attrs self;
  match dn_nextitem_index d with
  | None =>
      sendevent runtest_need_work;;
      '(next_item, next) ← get_more_work;
      modify (λ w, set_heap (<[self := DummyNextObj next_item (Some next)]> (heap w)) w)
  | Some _ => mret tt
  end.

Definition _next_index (self : nat) : M (option entry) :=
  _fetch self;;
  d ← attrs self;
  mret (dn_nextitem_index d).

Definition listchain (self : nat) : M (list string) :=
  _fetch self;;
  d ← attrs self;
  mret (match real_next d with
        | Some it => item_listchain it
        | None => []
        end).

End methods.
End DummyNext.

(** ** WorkerInteractor: the hooks and the main loop *)

Section worker.
Context `{Env}.

Definition pytest_runtest_logstart (nodeid : string) (location : pyval) : M unit :=
  sendevent (logstart nodeid location).

Definition pytest_runtest_logfinish (nodeid : string) (location : pyval) : M unit :=
  sendevent (logfinish nodeid location).

(** [self.item_index]: an [AttributeError] while it was never assigned. *)
Definition get_item_index : M (option entry) := λ w,
  match item_index w with
  | Some v => (Ok v, w)
  | None => (Raise AttributeError, w)
  end.

Definition pytest_runtest_logreport (report : report) : M unit :=
  let data := hook_pytest_report_to_serializable report in
  i ← get_item_index;
  let data := <["item_index" := index_value i]> data in
  let data := <["worker_id" := workerid]> data in
  let data := <["testrun_uid" := testrunuid]> data in
  it ← items_getitem i;
  if decide (nodeid it = rep_nodeid report) then sendevent (testreport data)
  else raise AssertionError.

(** One call of the engine back into the worker; [next] is the [nextitem]
    the hook was given. *)
Definition engine_callback (next : nat) (c : engine_call) : M unit :=
  match c with
  | call_listchain => DummyNext.listchain next;; mret tt
  | call_logstart nodeid location => pytest_runtest_logstart nodeid location
  | call_logreport r => pytest_runtest_logreport r
  | call_logfinish nodeid location => pytest_runtest_logfinish nodeid location
  end.

Fixpoint engine_callbacks (next : nat) (cs : list engine_call) : M unit :=
  match cs with
  | [] => mret tt
  | c :: cs' => engine_callback next c;; engine_callbacks next cs'
  end.

(** [self.config.hook.pytest_runtest_protocol(item=item, nextitem=next)]:
    the engine makes its calls in order; a call that raises ends the hook
    with that exception. *)
Definition config_hook_pytest_runtest_protocol (it : item) (next : nat) : M unit :=
  history ← read trace;
  perform (Protocol it);;
  let run := hook_pytest_runtest_protocol history it in
  engine_callbacks next (engine_calls run);;
  match engine_raises run with
  | None => mret tt
  | Some e => raise e
  end.

(** [worker_title]: [setproctitle] with its errors dropped. *)
Definition worker_title (title : string) : M unit := perform (Title title).

(** [time.time()] *)
Definition time_now : M Z := λ w,
  let t := time_time (trace w) in (Ok t, record_action (Time t) w).

Definition run_one_test : M unit :=
  i ← read nextitem_index;
  modify (set_item_index i);;
  item ← items_getitem i;
  worker_title ("[pytest-xdist running] " +:+ nodeid item);;
  start ← time_now;
  modify (set_nextitem_index None);;
  next ← DummyNext.new;
  try_except (config_hook_pytest_runtest_protocol item next) is_BaseException
    (λ e, x ← lift_outcome (pickle_dumps_exc_info e); sendevent (exception x));;
  stop ← time_now;
  let duration := (stop - start)%Z in
  worker_title "[pytest-xdist idle]";;
  i ← get_item_index;
  sendevent (runtest_protocol_complete (index_value i) duration);;
  n ← DummyNext._next_index next;
  modify (set_nextitem_index n).

(** [while self.nextitem_index is not self.SHUTDOWN_MARK: self.run_one_test()],
    for at most [fuel] tests. *)
Fixpoint runtestloop_while (fuel : nat) : M unit :=
  n ← read nextitem_index;
  if decide (n = Some SHUTDOWN_MARK) then mret tt
  else match fuel with
       | 0 => out_of_fuel
       | S fuel' => run_one_test;; runtestloop_while fuel'
       end.

(** [pytest_runtestloop]: from [setcallback] on the commands fill the
    queue; the queue of the world holds what they put. *)
Definition pytest_runtestloop (fuel : nat) : M bool :=
  v ← torun_get;
  modify (set_nextitem_index (Some v));;
  runtestloop_while fuel;;
  mret true.

End worker.

(** ** RemoteMessageHandler: the log relay *)

Module RemoteMessageHandler.
Section methods.
Context `{Env}.

(** [logging.Handler.handleError(record)]: reports on [sys.stderr] and
    returns. *)
Definition handleError (record : log_record) : M unit :=
  perform (HandleError record).

(** [copy.copy(record)] followed by the five assignments. *)
Definition snapshot (record : log_record) (msg : string) : log_record :=
  {| rec_message := VStr msg;
     rec_msg := VStr msg;
     rec_args := VNone;
     rec_exc_info := VNone;
     rec_exc_text := VNone |}.

(** [emit]: one [try] around the whole body and [except Exception].  The
    handler sees the [record] bound when the exception arises: the argument
    while [format] runs, the copy afterwards.  [self.queue] is the
    interactor. *)
Definition emit (record : log_record) : M unit :=
  match format record with
  | Raises e => if is_Exception e then handleError record else raise e
  | Returns msg =>
      let record := snapshot record msg in
      try_except
        (x ← lift_outcome (pickle_dumps_record record); send_log x)
        is_Exception
        (λ _, handleError record)
  end.

End methods.
End RemoteMessageHandler.

(** ** The serialization of warnings *)

(** A [Warning] instance: the module and the name of its class, its
    [str()] and its [args]. *)
Record warning := Warning {
  w_module : string;
  w_class_name : string;
  w_str : string;
  w_args : pyval;
}.

(** [warning_message.message]: a [Warning] instance, or something else. *)
Inductive message_obj :=
  | IsWarning (m : warning)
  | NotWarning (v : pyval).

(** A [warnings.WarningMessage]: [category] is [None] or a class, with its
    module and its name; [getattr] gives the other attributes by name. *)
Record warning_message := WarningMessage {
  message : message_obj;
  category : option (string * string);
  getattr : string → pyval;
}.

Global Instance outcome_ret : MRet outcome := @Returns.
Global Instance outcome_bind : MBind outcome := λ A B f o,
  match o with
  | Returns a => f a
  | Raises e => Raises e
  end.

Section serialize.
(** [execnet.gateway_base.dumps] *)
Variable dumps : pyval → outcome (list Byte.byte).
(** [repr] *)
Variable repr : pyval → string.
(** [WarningMessage._WARNING_DETAILS], which varies between Python versions *)
Variable _WARNING_DETAILS : list string.

(** [try: dumps(v) / except DumpError: on_error / else: on_else] *)
Definition try_dumps {A : Type} (v : pyval) (on_error on_else : A) : outcome A :=
  match dumps v with
  | Returns _ => Returns on_else
  | Raises e => if is_DumpError e then Returns on_error else Raises e
  end.

(** The loop over [_WARNING_DETAILS]. *)
Fixpoint serialize_details (warning_message : warning_message)
    (names : list string) (result : gmap string pyval) : outcome (gmap string pyval) :=
  match names with
  | [] => Returns result
  | attr_name :: names' =>
      if decide (attr_name ∈ ["message"; "category"])
      then serialize_details warning_message names' result
      else
        let attr := getattr warning_message attr_name in
        v ← try_dumps attr (VStr (repr attr)) attr;
        serialize_details warning_message names' (<[attr_name := v]> result)
  end.

Definition serialize_warning_message (warning_message : warning_message)
    : outcome (gmap string pyval) :=
  '(message_str, message_module, message_class_name, message_args) ←
    match message warning_message with
    | IsWarning m =>
        message_args ← try_dumps (w_args m) VNone (w_args m);
        mret (VStr (w_str m), VStr (w_module m), VStr (w_class_name m), message_args)
    | NotWarning v => mret (v, VNone, VNone, VNone)
    end;
  let '(category_module, category_class_name) :=
    match category warning_message with
    | Some (module, name) => (VStr module, VStr name)
    | None => (VNone, VNone)
    end in
  let result : gmap string pyval :=
    <["category_class_name" := category_class_name]>
    (<["category_module" := category_module]>
    (<["message_args" := message_args]>
    (<["message_class_name" := message_class_name]>
    (<["message_module" := message_module]>
    (<["message_str" := message_str]> ∅))))) in
  serialize_details warning_message _WARNING_DETAILS result.

End serialize.

(** ** Producer: the diagnostic log *)

Module Producer.

Record producer := MkProducer {
  name : string;
  enabled : bool;
}.

(** [__call__]: the arguments given to [print], with [sys.stderr] as the
    file, or nothing when the producer is off.  Keyword arguments go to
    [print] as they are. *)
Definition __call__ (self : producer) (a : list pyval) : option (list pyval) :=
  if enabled self then Some (VStr ("[" +:+ name self +:+ "]") :: a) else None.

(** [__getattr__], which Python calls for an attribute the object does
    not have: a producer of that name, on or off as this one. *)
Definition __getattr__ (self : producer) (attr : string) : producer :=
  MkProducer attr (enabled self).

(** [self.log] of the interactor: [Producer(f"worker-{self.workerid}",
    enabled=config.option.debug)]. *)
Definition worker_log (workerid : string) (debug : bool) : producer :=
  MkProducer ("worker-" +:+ workerid) debug.

End Producer.

(** ** The collection hook and the configuration *)

(** A mark on an item: its positional and its keyword arguments (group
    names are taken as their [str()]). *)
Record mark := Mark {
  mark_args : list string;
  mark_kwargs : gmap string string;
}.

(** An item as the collection hook sees it: [get_closest_marker("xdist_group")]
    is [None] or a mark. *)
Record collected := Collected {
  col_item : item;
  xdist_group : option mark;
}.

(** [mark.args[0] if len(mark.args) > 0 else mark.kwargs.get("name", "default")] *)
Definition group_name (m : mark) : string :=
  match mark_args m with
  | a :: _ => a
  | [] => default "default" (mark_kwargs m !! "name")
  end.

(** The body of the loop of [pytest_collection_modifyitems]. *)
Definition add_group_suffix (c : collected) : collected :=
  match xdist_group c with
  | None => c
  | Some m =>
      Collected (Item (nodeid (col_item c) +:+ "@" +:+ group_name m)
                      (item_listchain (col_item c)))
                (xdist_group c)
  end.

(** [pytest_collection_modifyitems], with [config.getvalue("loadgroup")]
    as [loadgroup]: the items afterwards. *)
Definition pytest_collection_modifyitems (loadgroup : bool)
    (items : list collected) : list collected :=
  if loadgroup then add_group_suffix <$> items else items.

(** The options [setup_config] writes, in [config.option]. *)
Record options := Options {
  opt_dist : string;
  opt_loadgroup : bool;
  opt_looponfail : bool;
  opt_usepdb : bool;
  opt_distload : bool;
  opt_numprocesses : pyval;
  opt_maxprocesses : pyval;
  opt_basetemp : pyval;
}.

(** [setup_config]: [config.getvalue("dist")] reads [config.option.dist],
    before the assignment to it. *)
Definition setup_config (option : options) (basetemp : pyval) : options :=
  {| opt_loadgroup := bool_decide (opt_dist option = "loadgroup");
     opt_looponfail := false;
     opt_usepdb := false;
     opt_dist := "no";
     opt_distload := false;
     opt_numprocesses := VNone;
     opt_maxprocesses := VNone;
     opt_basetemp := basetemp |}.

(** ** Concrete environments

    Three items, a channel that delivers, a clock that advances by one tick
    with every call the worker makes, and an engine that files the usual
    reports and asks for the chain of the next item before the teardown
    report.  The engine and the picklers vary. *)

Definition sample_items : list item :=
  [ Item "test_a.py::test_one" ["test_a.py"];
    Item "test_a.py::test_two" ["test_a.py"];
    Item "test_b.py::test_three" ["test_b.py"] ].

Definition usual_calls (it : item) : list engine_call :=
  [ call_logstart (nodeid it) VNone;
    call_logreport (Report (nodeid it) (VStr "setup"));
    call_logreport (Report (nodeid it) (VStr "call"));
    call_listchain;
    call_logreport (Report (nodeid it) (VStr "teardown"));
    call_logfinish (nodeid it) VNone ].

(** Every item passes. *)
Definition passing_engine (history : list action) (it : item) : protocol_run :=
  ProtocolRun (usual_calls it) None.

(** The run of [test_two] is interrupted before the engine calls back. *)
Definition interrupted_engine (history : list action) (it : item) : protocol_run :=
  if decide (nodeid it = "test_a.py::test_two")
  then ProtocolRun [] (Some KeyboardInterrupt)
  else ProtocolRun (usual_calls it) None.

Definition sample_env
    (engine : list action → item → protocol_run)
    (pickle_exc_info : exn → outcome (list Byte.byte)) : Env :=
  {| items := sample_items;
     workerid := VStr "gw0";
     testrunuid := VStr "0a1b2c";
     channel_send := λ _ _, None;
     time_time := λ history, Z.of_nat (length history);
     hook_pytest_runtest_protocol := engine;
     hook_pytest_report_to_serializable := λ r,
       {[ "nodeid" := VStr (rep_nodeid r); "when" := rep_body r ]};
     pickle_dumps_exc_info := pickle_exc_info;
     pickle_dumps_record := λ _, Returns [Byte.x80; Byte.x04];
     format := λ _, Returns "message" |}.

Definition pickles (e : exn) : outcome (list Byte.byte) :=
  Returns [Byte.x80; Byte.x04; Byte.x2e].
(** [pickle] refuses the traceback object in [sys.exc_info()]. *)
Definition cannot_pickle (e : exn) : outcome (list Byte.byte) := Raises TypeError.

Definition passing_env : Env := sample_env passing_engine pickles.
Definition interrupted_env : Env := sample_env interrupted_engine pickles.
Definition unpicklable_env : Env := sample_env interrupted_engine cannot_pickle.

(** The run of [test_two] is interrupted in its teardown, after the engine
    asked for the chain of the next item. *)
Definition late_interrupt_engine (history : list action) (it : item) : protocol_run :=
  if decide (nodeid it = "test_a.py::test_two")
  then ProtocolRun
         [ call_logstart (nodeid it) VNone;
           call_logreport (Report (nodeid it) (VStr "setup"));
           call_logreport (Report (nodeid it) (VStr "call"));
           call_listchain ]
         (Some KeyboardInterrupt)
  else ProtocolRun (usual_calls it) None.

Definition late_interrupt_env : Env := sample_env late_interrupt_engine cannot_pickle.




(** The encoder of the channel, for the serialization of warnings: it takes
    everything but objects. *)
Fixpoint transportable (v : pyval) : bool :=
  match v with
  | VObject _ => false
  | VTuple vs => forallb transportable vs
  | _ => true
  end.

Definition sample_dumps (v : pyval) : outcome (list Byte.byte) :=
  if transportable v then Returns [Byte.x00] else Raises DumpError.

Definition sample_repr (v : pyval) : string :=
  match v with
  | VObject _ => "<_io.TextIOWrapper name='<stderr>'>"
  | _ => "None"
  end.

(** [_WARNING_DETAILS] of CPython 3. *)
Definition python3_details : list string :=
  ["message"; "category"; "filename"; "lineno"; "file"; "line"; "source"].

(** [UserWarning(1, "x")] raised at line 3 of [test_a.py], with a file
    object in its [file] attribute. *)
Definition sample_warning (args : pyval) : warning_message :=
  {| message := IsWarning (Warning "builtins" "UserWarning" "(1, 'x')" args);
     category := Some ("builtins", "UserWarning");
     getattr := λ attr_name,
       if decide (attr_name = "filename") then VStr "test_a.py"
       else if decide (attr_name = "lineno") then VInt 3
       else if decide (attr_name = "file") then VObject 7
       else VNone |}.

(** Three collected items: one without the mark, one with the group as
    the positional argument of the mark, one with the group by name. *)
Definition sample_collected : list collected :=
  [ Collected (Item "test_a.py::test_one" ["test_a.py"]) None;
    Collected (Item "test_a.py::test_two" ["test_a.py"])
      (Some (Mark ["db"] {[ "name" := "ignored" ]}));
    Collected (Item "test_b.py::test_three" ["test_b.py"])
      (Some (Mark [] {[ "name" := "net" ]})) ].

(** A worker that has not run anything yet, with [q] in its queue. *)
Definition initial_world (q : list entry) : world :=
  World q None None [] [].

(** ** The vocabulary of the statements *)

(** The indices waiting in a queue, in queue order. *)
Definition pending_indices (q : list entry) : list Z :=
  omap (λ v, match v with Idx i => Some i | SHUTDOWN_MARK => None end) q.

(** An entry of the queue that a steal of the set [S] asks for. *)
Definition requested (S : gset Z) (v : entry) : Prop :=
  match v with
  | Idx i => i ∈ S
  | SHUTDOWN_MARK => False
  end.

Global Instance requested_dec (S : gset Z) (v : entry) : Decision (requested S v).
Proof. destruct v; simpl; apply _. Defined.

(** The entries of the queue that [items] can resolve. *)
Definition valid_entry `{Env} (v : entry) : Prop :=
  match v with
  | Idx i => is_Some (py_getitem items i)
  | SHUTDOWN_MARK => True
  end.

(** The item [get_more_work] returns with the entry [v]. *)
Definition resolve `{Env} (v : entry) : option item :=
  match v with
  | Idx i => py_getitem items i
  | SHUTDOWN_MARK => None
  end.

(** What is asked of a [DummyNext] object, and what it answers. *)
Inductive dummy_query :=
  | query_listchain
  | query_next_index.

Inductive dummy_answer :=
  | answer_chain (chain : list string)
  | answer_index (index : option entry).

Definition ask `{Env} (self : nat) (q : dummy_query) : M dummy_answer :=
  match q with
  | query_listchain => chain ← DummyNext.listchain self; mret (answer_chain chain)
  | query_next_index => index ← DummyNext._next_index self; mret (answer_index index)
  end.

Fixpoint ask_all `{Env} (self : nat) (qs : list dummy_query) : M (list dummy_answer) :=
  match qs with
  | [] => mret []
  | q :: qs' => a ← ask self q; answers ← ask_all self qs'; mret (a :: answers)
  end.

(** The answer of an object that holds the entry [v]. *)
Definition cached_answer `{Env} (v : entry) (q : dummy_query) : dummy_answer :=
  match q with
  | query_listchain =>
      answer_chain (match resolve v with
                    | Some it => item_listchain it
                    | None => []
                    end)
  | query_next_index => answer_index (Some v)
  end.

(** Assumptions on the environment: the channel takes every message,
    [pickle] takes what [sys.exc_info()] returns, the clock does not go
    back. *)
Definition channel_delivers `{Env} : Prop :=
  ∀ history ev, channel_send history ev = None.

Definition exc_info_pickles `{Env} : Prop :=
  ∀ e, ∃ x, pickle_dumps_exc_info e = Returns x.

Definition clock_advances `{Env} : Prop :=
  ∀ history more, (time_time history ≤ time_time (history ++ more))%Z.

(** The entries a trace shows as taken from the queue. *)
Definition dequeued (tr : list action) : list entry :=
  omap (λ a, match a with Get v => Some v | _ => None end) tr.

(** The [runtest_protocol_complete] events of a trace, as pairs of an item
    index and a duration. *)
Definition completions (tr : list action) : list (pyval * Z) :=
  omap (λ a, match a with
             | Send (runtest_protocol_complete i d) => Some (i, d)
             | _ => None
             end) tr.

(** The items a trace shows as given to the engine. *)
Definition executed (tr : list action) : list item :=
  omap (λ a, match a with Protocol it => Some it | _ => None end) tr.

(** The calls of the engine and the [runtest_protocol_complete] events of
    a trace, in their order. *)
Definition is_milestone (a : action) : bool :=
  match a with
  | Protocol _ | Send (runtest_protocol_complete _ _) => true
  | _ => false
  end.

Definition milestones (tr : list action) : list action :=
  filter (λ a, is_milestone a = true) tr.

(** The entries of a queue before its first mark. *)
Fixpoint before_mark (q : list entry) : list Z :=
  match q with
  | Idx i :: q' => i :: before_mark q'
  | _ => []
  end.

(** ** Weakest preconditions for methods *)

(** The ways a method ends without a result. *)
Inductive abort :=
  | ab_raise (e : exn)
  | ab_blocked
  | ab_out_of_fuel.

(** [wp m Q E w]: run from [w], the method [m] ends with a result and a
    world that satisfy [Q], or without a result in a world that satisfies
    [E]. *)
Definition wp {A : Type} (m : M A) (Q : A → world → Prop)
    (E : abort → world → Prop) (w : world) : Prop :=
  match m w with
  | (Ok a, w') => Q a w'
  | (Raise e, w') => E (ab_raise e) w'
  | (Blocked, w') => E ab_blocked w'
  | (OutOfFuel, w') => E ab_out_of_fuel w'
  end.

(** The worker while it runs the item at index [i]: [next] is the
    [DummyNext] object of this run, [q] was the queue and [tr0] the trace
    at some point before the engine was called.  Since then the trace
    shows the milestones [ms], and the object either holds nothing, the
    queue being untouched, or holds the first entry of [q], taken from the
    queue by the one [get] since. *)
Definition during_run `{Env} (i : Z) (next : nat) (q : list entry)
    (tr0 ms : list action) (w : world) : Prop :=
  item_index w = Some (Some (Idx i)) ∧
  ∃ new, trace w = tr0 ++ new ∧ milestones new = ms ∧
    ((heap w !! next = Some (DummyNextObj None None) ∧
      torun w = q ∧ dequeued new = []) ∨
     (∃ v q', q = v :: q' ∧
      heap w !! next = Some (DummyNextObj (resolve v) (Some v)) ∧
      torun w = q' ∧ dequeued new = [v])).

(** How the calls of the engine may end early: by an exception, in a world
    as above, or by waiting on an empty queue. *)
Definition run_aborts `{Env} (i : Z) (next : nat) (q : list entry)
    (tr0 ms : list action) (ab : abort) (w : world) : Prop :=
  match ab with
  | ab_raise _ => during_run i next q tr0 ms w
  | ab_blocked => q = [] ∧ during_run i next q tr0 ms w
  | ab_out_of_fuel => False
  end.

(** The data of the [testreport] event for the report [r] while the item
    at index [i] runs. *)
Definition report_data `{Env} (i : Z) (r : report) : gmap string pyval :=
  <["testrun_uid" := testrunuid]>
  (<["worker_id" := workerid]>
  (<["item_index" := VInt i]> (hook_pytest_report_to_serializable r))).

(** What the worker does in the calls of the engine and when it resolves
    the next item, while the item at index [i] runs: it takes an entry from
    the queue, and it sends [runtest_need_work], [logstart], [logfinish]
    and, for a report with the node id of the item, [testreport]. *)
Definition callback_action `{Env} (i : Z) (a : action) : Prop :=
  match a with
  | Send (testreport d) =>
      ∃ r it, py_getitem items i = Some it ∧ nodeid it = rep_nodeid r ∧
              d = report_data i r
  | Send runtest_need_work | Send (logstart _ _) | Send (logfinish _ _) | Get _ => True
  | _ => False
  end.

(** The item at index [i] runs and the trace has grown from [tr0] by such
    actions only. *)
Definition in_callbacks `{Env} (i : Z) (tr0 : list action) (w : world) : Prop :=
  item_index w = Some (Some (Idx i)) ∧
  ∃ new, trace w = tr0 ++ new ∧ Forall (callback_action i) new.

(** The milestones of the runs [(i, it, d)]: the item [it], found at the
    index [i], is given to the engine, and then [runtest_protocol_complete]
    is sent with [i] and the duration [d]. *)
Definition run_milestones (runs : list (Z * item * Z)) : list action :=
  flat_map (λ '(i, it, d), [Protocol it; Send (runtest_protocol_complete (VInt i) d)]) runs.



(** The [runtest_need_work] events of a trace. *)
Definition is_need_work (a : action) : bool :=
  match a with
  | Send runtest_need_work => true
  | _ => false
  end.

Definition need_work_events (tr : list action) : nat :=
  length (filter is_need_work tr).

(** The claim that an object queried twice sends at most one
    [runtest_need_work] event, whatever the first call came to. *)
Definition asks_at_most_once `{Env} (self : nat) (w : world) : Prop :=
  ∀ q1 q2 : dummy_query,
    need_work_events (trace (ask self q2 (ask self q1 w).2).2)
    ≤ need_work_events (trace w) + 1.


(** The attributes of a warning that the loop of
    [serialize_warning_message] does not skip. *)
Definition auxiliary (attr_name : string) : Prop :=
  attr_name ∉ ["message"; "category"].

(** The entries of a queue behind its first mark. *)
Fixpoint after_mark (q : list entry) : list entry :=
  match q with
  | Idx _ :: q' => after_mark q'
  | SHUTDOWN_MARK :: q' => q'
  | [] => []
  end.

(** While a test runs with the [DummyNext] object [next]: the trace has
    grown from [tr0] by [get]s of the first entries of the queue [q0], in
    their order, and by calls of the engine for the items [ex]; the object
    is there, and holds an entry only after a [get]. *)
Definition taking (next : nat) (q0 : list entry) (tr0 : list action)
    (ex : list item) (w : world) : Prop :=
  ∃ new, trace w = tr0 ++ new ∧ q0 = dequeued new ++ torun w ∧
    executed new = ex ∧
    ∃ d, heap w !! next = Some d ∧
      (is_Some (dn_nextitem_index d) → dequeued new ≠ []).

(** The keys of a serialized warning: the six fixed ones and the
    attributes of [_WARNING_DETAILS] other than [message] and [category]. *)
Definition result_keys (_WARNING_DETAILS : list string) : gset string :=
  list_to_set ["message_str"; "message_module"; "message_class_name";
               "message_args"; "category_module"; "category_class_name"] ∪
  list_to_set (filter (λ attr_name, attr_name ∉ ["message"; "category"]) _WARNING_DETAILS).

(** What the channel takes for sure: what [dumps] takes, a string, [None]. *)
Definition sendable (dumps : pyval → outcome (list Byte.byte)) (v : pyval) : Prop :=
  (∃ x, dumps v = Returns x) ∨ (∃ s, v = VStr s) ∨ v = VNone.

(** * Theorems *)

(** ** The monad *)

Lemma run_bind {A B : Type} (m : M A) (f : A → M B) (w : world) :
  (m ≫= f) w =
  match m w with
  | (Ok a, w') => f a w'
  | (Raise e, w') => (Raise e, w')
  | (Blocked, w') => (Blocked, w')
  | (OutOfFuel, w') => (OutOfFuel, w')
  end.
Proof. reflexivity. Qed.

Lemma run_bind_ok {A B : Type} (m : M A) (f : A → M B) (w w' : world) (a : A) :
  m w = (Ok a, w') → (m ≫= f) w = f a w'.
Proof. intros E. rewrite run_bind, E. reflexivity. Qed.

(** ** Rules for weakest preconditions *)

Section wp_rules.
Context `{Env}.
Context {A B : Type}.
Implicit Types (Q : A → world → Prop) (E : abort → world → Prop).

Lemma wp_ret (a : A) Q E w : wp (mret a) Q E w ↔ Q a w.
Proof. reflexivity. Qed.

Lemma wp_bind (m : M A) (f : A → M B) (R : B → world → Prop) E w :
  wp (m ≫= f) R E w ↔ wp m (λ a, wp (f a) R E) E w.
Proof. unfold wp. rewrite run_bind. by destruct (m w) as [[]]. Qed.

Lemma wp_mono (m : M A) Q Q' E E' w :
  (∀ a w', Q a w' → Q' a w') → (∀ ab w', E ab w' → E' ab w') →
  wp m Q E w → wp m Q' E' w.
Proof. unfold wp. intros HQ HE. destruct (m w) as [[]]; auto. Qed.

Lemma wp_try_except (body : M A) (catches : exn → bool) (handler : exn → M A) Q E w :
  wp (try_except body catches handler) Q E w ↔
  wp body Q (λ ab w',
    match ab with
    | ab_raise e => if catches e then wp (handler e) Q E w' else E ab w'
    | _ => E ab w'
    end) w.
Proof.
  unfold wp, try_except. destruct (body w) as [[a|e| |] w']; try done.
  by destruct (catches e).
Qed.

Lemma wp_raise (e : exn) Q E w : wp (raise e) Q E w ↔ E (ab_raise e) w.
Proof. reflexivity. Qed.

Lemma wp_lift_outcome (o : outcome A) Q E w :
  wp (lift_outcome o) Q E w ↔
  match o with
  | Returns a => Q a w
  | Raises e => E (ab_raise e) w
  end.
Proof. by destruct o. Qed.

(** What [wp] says of a run. *)
Lemma wp_run (m : M A) Q E w :
  wp m Q E w →
  match (m w).1 with
  | Ok a => Q a (m w).2
  | Raise e => E (ab_raise e) (m w).2
  | Blocked => E ab_blocked (m w).2
  | OutOfFuel => E ab_out_of_fuel (m w).2
  end.
Proof. unfold wp. by destruct (m w) as [[]]. Qed.

End wp_rules.

Section wp_primitives.
Context `{Env}.
Implicit Types (E : abort → world → Prop).

Lemma wp_read {A : Type} (f : world → A) (Q : A → world → Prop) E w :
  wp (read f) Q E w ↔ Q (f w) w.
Proof. reflexivity. Qed.

Lemma wp_modify (f : world → world) (Q : unit → world → Prop) E w :
  wp (modify f) Q E w ↔ Q tt (f w).
Proof. reflexivity. Qed.

Lemma wp_perform (a : action) (Q : unit → world → Prop) E w :
  wp (perform a) Q E w ↔ Q tt (record_action a w).
Proof. reflexivity. Qed.

Lemma wp_sendevent (ev : event) (Q : unit → world → Prop) E w :
  wp (sendevent ev) Q E w ↔
  match channel_send (trace w) ev with
  | None => Q tt (record_action (Send ev) w)
  | Some e => E (ab_raise e) (record_action (Send ev) w)
  end.
Proof. unfold wp, sendevent. by destruct (channel_send _ _). Qed.

Lemma wp_torun_get (Q : entry → world → Prop) E w :
  wp torun_get Q E w ↔
  match torun w with
  | [] => E ab_blocked w
  | v :: q => Q v (record_action (Get v) (set_torun q w))
  end.
Proof. unfold wp, torun_get. by destruct (torun w). Qed.

Lemma wp_time_now (Q : Z → world → Prop) E w :
  wp time_now Q E w ↔ Q (time_time (trace w)) (record_action (Time (time_time (trace w))) w).
Proof. reflexivity. Qed.

Lemma wp_get_item_index (Q : option entry → world → Prop) E w :
  wp get_item_index Q E w ↔
  match item_index w with
  | Some v => Q v w
  | None => E (ab_raise AttributeError) w
  end.
Proof. unfold wp, get_item_index. by destruct (item_index w). Qed.

Lemma wp_items_getitem (i : option entry) (Q : item → world → Prop) E w :
  wp (items_getitem i) Q E w ↔
  match i with
  | Some (Idx z) =>
      match py_getitem items z with
      | Some it => Q it w
      | None => E (ab_raise IndexError) w
      end
  | _ => E (ab_raise TypeError) w
  end.
Proof.
  unfold wp, items_getitem. destruct i as [[z|]|]; try done.
  by destruct (py_getitem items z).
Qed.

Lemma wp_get_more_work (Q : option item * entry → world → Prop) E w :
  wp get_more_work Q E w ↔
  match torun w with
  | [] => E ab_blocked w
  | v :: q =>
      let w' := record_action (Get v) (set_torun q w) in
      match v with
      | Idx z =>
          match py_getitem items z with
          | Some it => Q (Some it, v) w'
          | None => E (ab_raise IndexError) w'
          end
      | SHUTDOWN_MARK => Q (None, v) w'
      end
  end.
Proof.
  unfold wp, get_more_work. rewrite run_bind. unfold torun_get.
  destruct (torun w) as [|[z|] q]; try done.
  rewrite run_bind. unfold items_getitem. by destruct (py_getitem items z).
Qed.

Lemma wp_attrs (self : nat) (Q : dummy_next → world → Prop) E w :
  wp (DummyNext.attrs self) Q E w ↔
  match heap w !! self with
  | Some d => Q d w
  | None => E (ab_raise AttributeError) w
  end.
Proof. unfold wp, DummyNext.attrs. by destruct (heap w !! self). Qed.

End wp_primitives.

(** ** The steal protocol *)

Section steal_facts.
Context `{Env}.

Lemma steal_drain_spec (S : gset Z) (q : list entry) (stolen : list Z) (w : world) :
  steal_drain S q stolen w =
  (Ok (stolen ++ filter (.∈ S) (pending_indices q)),
   set_torun (torun w ++ filter (λ v, ¬ requested S v) q) w).
Proof.
  revert stolen w. induction q as [|v q IH]; intros stolen w.
  - simpl. rewrite !app_nil_r. by destruct w.
  - destruct v as [i|]; simpl.
    + unfold pending_indices in *. simpl. rewrite filter_cons.
      destruct (decide (i ∈ S)) as [Hi|Hi].
      * rewrite IH. rewrite (filter_cons_False (λ v, ¬ requested S v)) by (simpl; tauto).
        by rewrite <- app_assoc.
      * rewrite run_bind. simpl. rewrite IH. simpl.
        rewrite (filter_cons_True (λ v, ¬ requested S v)) by (simpl; tauto).
        by rewrite <- app_assoc.
    + rewrite run_bind. simpl. rewrite IH. simpl.
      rewrite (filter_cons_True (λ v, ¬ requested S v)) by (simpl; tauto).
      by rewrite <- app_assoc.
Qed.

Lemma pending_indices_kept (S : gset Z) (q : list entry) :
  pending_indices (filter (λ v, ¬ requested S v) q) = filter (.∉ S) (pending_indices q).
Proof.
  induction q as [|[i|] q IH]; [done|..].
  - destruct (decide (i ∈ S)) as [Hi|Hi].
    + rewrite filter_cons_False by (simpl; tauto).
      change (pending_indices (Idx i :: q)) with (i :: pending_indices q).
      rewrite filter_cons_False by tauto. done.
    + rewrite filter_cons_True by done.
      change (pending_indices (Idx i :: ?l)) with (i :: pending_indices l).
      rewrite filter_cons_True by done. by rewrite <- IH.
  - rewrite filter_cons_True by (simpl; tauto). done.
Qed.

Lemma steal_run (indices : list Z) (w : world) :
  let S : gset Z := list_to_set indices in
  let stolen := filter (.∈ S) (pending_indices (torun w)) in
  let kept := filter (λ v, ¬ requested S v) (torun w) in
  steal indices w =
  (match channel_send (trace w) (unscheduled stolen) with
   | None => Ok tt
   | Some e => Raise e
   end,
   World kept (nextitem_index w) (item_index w) (heap w)
     (trace w ++ [Send (unscheduled stolen)])).
Proof.
  intros S stolen kept. unfold steal.
  rewrite run_bind. simpl. rewrite run_bind. simpl. rewrite run_bind.
  rewrite steal_drain_spec. simpl. unfold sendevent. simpl.
  fold S stolen kept. by destruct (channel_send _ _).
Qed.

(** C1.  A steal of the indices [S] leaves in the queue, which is a fresh
    one, the entries of the old queue that are no members of [S], in their
    old order; it never waits; it sends one event, [unscheduled], and
    nothing else; and the indices of that event are the pending indices
    that are members of [S], in queue order: as a set, the intersection of
    [S] with the pending indices. *)
Theorem steal_partitions_pending (indices : list Z) (w : world) :
  let S : gset Z := list_to_set indices in
  let pending := pending_indices (torun w) in
  let stolen := filter (.∈ S) pending in
  let kept := filter (λ v, ¬ requested S v) (torun w) in
  let w' := (steal indices w).2 in
  torun w' = _make_queue ++ kept ∧
  kept `sublist_of` torun w ∧
  pending_indices kept = filter (.∉ S) pending ∧
  trace w' = trace w ++ [Send (unscheduled stolen)] ∧
  (list_to_set stolen : gset Z) = S ∩ list_to_set pending ∧
  (steal indices w).1 ≠ Blocked ∧
  (channel_send (trace w) (unscheduled stolen) = None → (steal indices w).1 = Ok tt) ∧
  nextitem_index w' = nextitem_index w ∧
  item_index w' = item_index w ∧
  heap w' = heap w.
Proof.
  intros S pending stolen kept w'. subst w'. rewrite steal_run. simpl.
  fold S pending stolen kept. repeat split.
  - apply sublist_filter.
  - apply pending_indices_kept.
  - apply set_eq. intros i. subst stolen.
    rewrite elem_of_intersection, !elem_of_list_to_set, list_elem_of_filter. tauto.
  - by destruct (channel_send _ _).
  - by intros ->.
Qed.

(** The example of the specification: [2, 5, 7, 9] are pending and
    [5, 9, 11] are asked for. *)
Example steal_2_5_7_9 :
  let w' := (steal [5; 9; 11]%Z (initial_world [Idx 2; Idx 5; Idx 7; Idx 9])).2 in
  torun w' = [Idx 2; Idx 7] ∧ trace w' = [Send (unscheduled [5; 9]%Z)].
Proof. rewrite steal_run. by vm_compute. Qed.

End steal_facts.

(** ** The serialization of warnings *)

Section serialize_facts.
Variable dumps : pyval → outcome (list Byte.byte).
Variable repr : pyval → string.
Variable details : list string.

Lemma is_DumpError_eq (e : exn) : is_DumpError e = true ↔ e = DumpError.
Proof. by destruct e. Qed.

(** What the loop stores for an attribute. *)
Lemma try_dumps_cases {A : Type} (v : pyval) (a b r : A) :
  try_dumps dumps v a b = Returns r →
  match dumps v with
  | Returns _ => r = b
  | Raises e => e = DumpError ∧ r = a
  end.
Proof.
  unfold try_dumps. destruct (dumps v) as [x|e]; [congruence|].
  destruct (is_DumpError e) eqn:E; [|done].
  apply is_DumpError_eq in E. split; congruence.
Qed.

Lemma serialize_details_lookup wm (names : list string) (r0 r : gmap string pyval) :
  serialize_details dumps repr wm names r0 = Returns r →
  ∀ name : string,
    (name ∈ names → auxiliary name →
      match dumps (getattr wm name) with
      | Returns _ => r !! name = Some (getattr wm name)
      | Raises e => e = DumpError ∧ r !! name = Some (VStr (repr (getattr wm name)))
      end) ∧
    ((name ∈ names → ¬ auxiliary name) → r !! name = r0 !! name).
Proof.
  unfold auxiliary.
  revert r0. induction names as [|n names IH]; intros r0 E name; simpl in E.
  - split; [by intros ?%elem_of_nil|]. congruence.
  - destruct (decide (n ∈ ["message"; "category"])) as [Hn|Hn].
    + destruct (IH _ E name) as [IH1 IH2]. split.
      * intros [->|Hin]%elem_of_cons Haux; [done|]. by apply IH1.
      * intros Hna. apply IH2. intros Hin. apply Hna. by right.
    + destruct (try_dumps dumps (getattr wm n) _ _) as [v|e] eqn:Ev; [|done].
      simpl in E. destruct (IH _ E name) as [IH1 IH2].
      apply try_dumps_cases in Ev.
      assert (name ∉ names → r !! name = <[n:=v]> r0 !! name) as Hfresh.
      { intros Hnot. apply IH2. intros Hin. done. }
      split.
      * intros Hin Haux. destruct (decide (name ∈ names)) as [Hin'|Hnot]; [by apply IH1|].
        apply elem_of_cons in Hin as [->|Hin]; [|done].
        rewrite (Hfresh Hnot), lookup_insert_eq.
        destruct (dumps (getattr wm n)); [by subst|]. by destruct Ev as [-> ->].
      * intros Hna. destruct (decide (name ∈ names)) as [Hin'|Hnot].
        -- rewrite (proj2 (IH _ E name)).
           ++ apply lookup_insert_ne. intros ->. apply Hna; [by left|done].
           ++ intros _. apply Hna. by right.
        -- rewrite (Hfresh Hnot). apply lookup_insert_ne. intros ->.
           apply Hna; [by left|done].
Qed.

(** The loop returns unless an attribute makes [dumps] raise something
    else than [DumpError]; then that exception leaves the loop. *)
Lemma serialize_details_returns wm (names : list string) (r0 : gmap string pyval) :
  (∀ name e, name ∈ names → auxiliary name →
     dumps (getattr wm name) = Raises e → e = DumpError) →
  ∃ r, serialize_details dumps repr wm names r0 = Returns r.
Proof.
  unfold auxiliary.
  revert r0. induction names as [|n names IH]; intros r0 Hok; simpl; [by eexists|].
  destruct (decide (n ∈ ["message"; "category"])) as [Hn|Hn].
  - apply IH. intros name e Hin. apply Hok. by right.
  - unfold try_dumps at 1. destruct (dumps (getattr wm n)) as [x|e] eqn:Ed; simpl.
    + apply IH. intros name e Hin. apply Hok. by right.
    + rewrite (Hok n e) by (done || by left). simpl.
      apply IH. intros name e' Hin. apply Hok. by right.
Qed.

Lemma serialize_details_raises wm (names : list string) (r0 : gmap string pyval) (e : exn) :
  serialize_details dumps repr wm names r0 = Raises e →
  e ≠ DumpError ∧
  ∃ name, name ∈ names ∧ auxiliary name ∧ dumps (getattr wm name) = Raises e.
Proof.
  unfold auxiliary.
  revert r0. induction names as [|n names IH]; intros r0 E; simpl in E; [done|].
  destruct (decide (n ∈ ["message"; "category"])) as [Hn|Hn].
  - destruct (IH _ E) as (? & name & ? & ? & ?). split; [done|].
    exists name. split; [by right|done].
  - unfold try_dumps at 1 in E. destruct (dumps (getattr wm n)) as [x|e'] eqn:Ed; simpl in E.
    + destruct (IH _ E) as (? & name & ? & ? & ?). split; [done|].
      exists name. split; [by right|done].
    + destruct (is_DumpError e') eqn:Ee; simpl in E.
      * destruct (IH _ E) as (? & name & ? & ? & ?). split; [done|].
        exists name. split; [by right|done].
      * injection E as <-. split; [by intros ->|].
        exists n. split; [by left|done].
Qed.

(** C5.  For an attribute of the warning other than [message] and
    [category]: when the warning is serialized, the mapping has an entry
    for the attribute, the attribute itself when [dumps] takes it and its
    [repr] when [dumps] raises, which is then a [DumpError]; and when the
    serialization raises, what it raises is an exception of [dumps] that is
    no [DumpError]. *)
Theorem every_detail_has_an_entry (wm : warning_message) (name : string) :
  name ∈ details → auxiliary name →
  match serialize_warning_message dumps repr details wm with
  | Returns result =>
      match dumps (getattr wm name) with
      | Returns _ => result !! name = Some (getattr wm name)
      | Raises e => e = DumpError ∧ result !! name = Some (VStr (repr (getattr wm name)))
      end
  | Raises e => e ≠ DumpError ∧ ∃ v, dumps v = Raises e
  end.
Proof.
  intros Hin Haux. unfold serialize_warning_message.
  destruct (message wm) as [m|v]; simpl.
  - unfold try_dumps at 1. destruct (dumps (w_args m)) as [x|e] eqn:Ea; simpl.
    + destruct (category wm) as [[??]|];
        (destruct (serialize_details _ _ _ _ _) as [r|e] eqn:E;
         [by apply (serialize_details_lookup _ _ _ _ E name)
         |apply serialize_details_raises in E as (? & ? & ? & ? & ?); eauto]).
    + destruct (is_DumpError e) eqn:Ee; simpl.
      * destruct (category wm) as [[??]|];
          (destruct (serialize_details _ _ _ _ _) as [r|e'] eqn:E;
           [by apply (serialize_details_lookup _ _ _ _ E name)
           |apply serialize_details_raises in E as (? & ? & ? & ? & ?); eauto]).
      * split; [by intros ->|eauto].
  - destruct (category wm) as [[??]|];
      (destruct (serialize_details _ _ _ _ _) as [r|e] eqn:E;
       [by apply (serialize_details_lookup _ _ _ _ E name)
       |apply serialize_details_raises in E as (? & ? & ? & ? & ?); eauto]).
Qed.


(** A message that is no [Warning] instance goes into [message_str] as it
    is, and [message_args] is [None]. *)
Lemma message_not_a_warning (wm : warning_message) (v : pyval) (result : gmap string pyval) :
  message wm = NotWarning v →
  "message_args" ∉ details → "message_str" ∉ details →
  serialize_warning_message dumps repr details wm = Returns result →
  result !! "message_str" = Some v ∧ result !! "message_args" = Some VNone.
Proof.
  intros Hm Hargs Hstr. unfold serialize_warning_message. rewrite Hm. simpl.
  destruct (category wm) as [[??]|]; intros E;
    (split;
     [rewrite (proj2 (serialize_details_lookup _ _ _ _ E "message_str")) by done
     |rewrite (proj2 (serialize_details_lookup _ _ _ _ E "message_args")) by done];
     done).
Qed.

End serialize_facts.

(** ** The delayed next item *)

Section dummy_next_facts.
Context `{Env}.

(** The world after a first [_fetch] that took [v] from the queue. *)
Lemma fetch_resolved (self : nat) (d : dummy_next) (w : world) :
  heap w !! self = Some d → is_Some (dn_nextitem_index d) →
  DummyNext._fetch self w = (Ok tt, w).
Proof.
  intros Hd [v Hv]. unfold DummyNext._fetch. rewrite run_bind.
  unfold DummyNext.attrs. rewrite Hd, Hv. reflexivity.
Qed.

Lemma fetch_unresolved (self : nat) (d : dummy_next) (w : world) :
  heap w !! self = Some d → dn_nextitem_index d = None →
  DummyNext._fetch self w =
  let w1 := record_action (Send runtest_need_work) w in
  match channel_send (trace w) runtest_need_work with
  | Some e => (Raise e, w1)
  | None =>
      match torun w with
      | [] => (Blocked, w1)
      | v :: q =>
          let w2 := record_action (Get v) (set_torun q w1) in
          match v, resolve v with
          | Idx _, None => (Raise IndexError, w2)
          | _, r => (Ok tt, set_heap (<[self := DummyNextObj r (Some v)]> (heap w)) w2)
          end
      end
  end.
Proof.
  intros Hd Hv. unfold DummyNext._fetch. rewrite run_bind.
  unfold DummyNext.attrs. rewrite Hd, Hv. rewrite run_bind.
  unfold sendevent. destruct (channel_send _ _) as [e|]; [done|].
  rewrite run_bind. unfold get_more_work. rewrite run_bind. unfold torun_get. simpl.
  destruct (torun w) as [|[z|] q]; [done|..].
  - rewrite run_bind. unfold items_getitem. simpl.
    by destruct (py_getitem items z).
  - reflexivity.
Qed.

Lemma ask_resolved (self : nat) (v : entry) (q : dummy_query) (w : world) :
  heap w !! self = Some (DummyNextObj (resolve v) (Some v)) →
  ask self q w = (Ok (cached_answer v q), w).
Proof.
  intros Hd. destruct q; unfold ask, DummyNext.listchain, DummyNext._next_index;
    rewrite run_bind, run_bind, (fetch_resolved _ _ _ Hd) by (by eexists);
    rewrite run_bind; unfold DummyNext.attrs; rewrite Hd; reflexivity.
Qed.

Lemma ask_all_resolved (self : nat) (v : entry) (qs : list dummy_query) (w : world) :
  heap w !! self = Some (DummyNextObj (resolve v) (Some v)) →
  ask_all self qs w = (Ok (cached_answer v <$> qs), w).
Proof.
  intros Hd. induction qs as [|q qs IH]; [done|].
  simpl. rewrite run_bind, (ask_resolved _ _ _ _ Hd), run_bind, IH. reflexivity.
Qed.

(** C4, as the code has it.  A [DummyNext] object that holds no index
    yet is asked for its chain or its index, any number of times and in
    any order, while the channel takes the [runtest_need_work] event and
    the queue holds indices of items.  On an empty queue the first call
    waits, after the event.  Otherwise the first call sends the event once
    and takes the first entry [v] of the queue; every call, the first and
    all later ones, answers from [v]; and the calls together add to the
    trace this one event and this one [get], whatever their number. *)
Theorem dummy_next_asks_once (self : nat) (d : dummy_next)
    (q : dummy_query) (qs : list dummy_query) (w : world) :
  heap w !! self = Some d →
  dn_nextitem_index d = None →
  channel_send (trace w) runtest_need_work = None →
  Forall valid_entry (torun w) →
  ask_all self (q :: qs) w =
  match torun w with
  | [] => (Blocked, record_action (Send runtest_need_work) w)
  | v :: rest =>
      (Ok (cached_answer v <$> q :: qs),
       World rest (nextitem_index w) (item_index w)
         (<[self := DummyNextObj (resolve v) (Some v)]> (heap w))
         (trace w ++ [Send runtest_need_work; Get v]))
  end.
Proof.
  intros Hd Hnone Hsend Hvalid.
  assert (DummyNext._fetch self w =
    match torun w with
    | [] => (Blocked, record_action (Send runtest_need_work) w)
    | v :: rest =>
        (Ok tt,
         World rest (nextitem_index w) (item_index w)
           (<[self := DummyNextObj (resolve v) (Some v)]> (heap w))
           (trace w ++ [Send runtest_need_work; Get v]))
    end) as Hfetch.
  { rewrite (fetch_unresolved _ _ _ Hd Hnone), Hsend. simpl.
    destruct (torun w) as [|v rest]; [done|].
    apply Forall_cons_1 in Hvalid as [Hv _].
    unfold record_action, set_torun, set_heap. simpl. rewrite <- app_assoc. simpl.
    destruct v as [z|]; [|done]. simpl in *. by destruct Hv as [it ->]. }
  destruct (torun w) as [|v rest] eqn:Hq.
  - simpl. rewrite run_bind. destruct q; unfold ask, DummyNext.listchain, DummyNext._next_index;
      by rewrite run_bind, run_bind, Hfetch.
  - set (w' := World rest _ _ _ _) in *.
    assert (heap w' !! self = Some (DummyNextObj (resolve v) (Some v))) as Hd'.
    { simpl. apply list_lookup_insert_eq. by eapply lookup_lt_Some. }
    assert (ask self q w = (Ok (cached_answer v q), w')) as Hask.
    { destruct q; unfold ask, DummyNext.listchain, DummyNext._next_index;
        rewrite run_bind, run_bind, Hfetch, run_bind; unfold DummyNext.attrs;
        rewrite Hd'; reflexivity. }
    change (ask_all self (q :: qs)) with
      (a ← ask self q; answers ← ask_all self qs; mret (a :: answers)).
    rewrite run_bind, Hask, run_bind, (ask_all_resolved _ _ _ _ Hd'). reflexivity.
Qed.

End dummy_next_facts.

(** ** The log relay *)

Section emit_facts.
Context `{Env}.

(** [emit] on a record that is formatted, pickled and sent. *)
Lemma emit_sends (record : log_record) (msg : string) (x : list Byte.byte) (w : world) :
  format record = Returns msg →
  pickle_dumps_record (RemoteMessageHandler.snapshot record msg) = Returns x →
  channel_send (trace w) (runtest_logmessage x) = None →
  RemoteMessageHandler.emit record w = (Ok tt, record_action (Send (runtest_logmessage x)) w).
Proof.
  intros Hf Hp Hs. unfold RemoteMessageHandler.emit, try_except. rewrite Hf.
  rewrite run_bind, Hp. simpl. unfold send_log, sendevent. by rewrite Hs.
Qed.


End emit_facts.

(** ** One test *)

Section loop_facts.
Context `{Env}.

Lemma milestones_app (tr1 tr2 : list action) :
  milestones (tr1 ++ tr2) = milestones tr1 ++ milestones tr2.
Proof. apply filter_app. Qed.

Lemma dequeued_app (tr1 tr2 : list action) :
  dequeued (tr1 ++ tr2) = dequeued tr1 ++ dequeued tr2.
Proof. apply omap_app. Qed.

Lemma wp_new (Q : nat → world → Prop) (E : abort → world → Prop) (w : world) :
  wp DummyNext.new Q E w ↔
  Q (length (heap w)) (set_heap (heap w ++ [DummyNextObj None None]) w).
Proof. reflexivity. Qed.

Lemma during_run_record (i : Z) (next : nat) (q : list entry) (tr0 ms : list action)
    (a : action) (w : world) :
  dequeued [a] = [] →
  during_run i next q tr0 ms w →
  during_run i next q tr0 (ms ++ milestones [a]) (record_action a w).
Proof.
  intros Hd (Hi & new & Htr & Hms & Hcase). split; [done|].
  exists (new ++ [a]). simpl. rewrite Htr, <- app_assoc. split; [done|].
  rewrite milestones_app, Hms. split; [done|].
  rewrite dequeued_app, Hd, app_nil_r. done.
Qed.

Lemma during_run_quiet (i : Z) (next : nat) (q : list entry) (tr0 ms : list action)
    (a : action) (w : world) :
  is_milestone a = false → dequeued [a] = [] →
  during_run i next q tr0 ms w → during_run i next q tr0 ms (record_action a w).
Proof.
  intros Hm Hd Hinv. apply (during_run_record _ _ _ _ _ a) in Hinv; [|done].
  unfold milestones in Hinv. rewrite filter_cons_False in Hinv by (by rewrite Hm).
  by rewrite app_nil_r in Hinv.
Qed.

(** After [_fetch] the object holds the first entry of the queue. *)
Lemma fetch_healthy (i : Z) (next : nat) (q : list entry) (tr0 ms : list action) (w : world) :
  channel_delivers → Forall valid_entry q →
  during_run i next q tr0 ms w →
  wp (DummyNext._fetch next)
    (λ _ w', during_run i next q tr0 ms w' ∧
       ∃ v q', q = v :: q' ∧ torun w' = q' ∧
         heap w' !! next = Some (DummyNextObj (resolve v) (Some v)))
    (λ ab w', ab = ab_blocked ∧ q = [] ∧ during_run i next q tr0 ms w') w.
Proof.
  intros Hsend Hvalid Hinv. pose proof Hinv as Hinv0.
  destruct Hinv as (Hi & new & Htr & Hms & [(Hd & Hq & Hdq)|(v & q' & -> & Hd & Hq & Hdq)]).
  - unfold wp. rewrite (fetch_unresolved _ _ _ Hd eq_refl), Hsend. simpl.
    rewrite Hq. destruct q as [|v q'].
    { split; [done|]. split; [done|]. by apply during_run_quiet. }
    apply Forall_cons_1 in Hvalid as [Hv _].
    assert (∀ r, heap w !! next = Some r →
      <[next := DummyNextObj (resolve v) (Some v)]> (heap w) !! next =
      Some (DummyNextObj (resolve v) (Some v))) as Hnew.
    { intros r Hr. apply list_lookup_insert_eq. by eapply lookup_lt_Some. }
    assert (during_run i next (v :: q') tr0 ms
      (set_heap (<[next := DummyNextObj (resolve v) (Some v)]> (heap w))
         (record_action (Get v) (set_torun q' (record_action (Send runtest_need_work) w))))).
    { split; [done|]. exists (new ++ [Send runtest_need_work; Get v]). simpl.
      rewrite Htr, <- !app_assoc. split; [done|].
      rewrite milestones_app, Hms, dequeued_app, Hdq. split; [by rewrite app_nil_r|].
      right. exists v, q'. eauto. }
    destruct v as [z|]; simpl in *.
    + destruct Hv as [it' Hz]. rewrite Hz in *. split; [done|].
      exists (Idx z), q'. simpl. rewrite Hz. eauto.
    + split; [done|]. exists SHUTDOWN_MARK, q'. simpl. eauto.
  - unfold wp. rewrite (fetch_resolved _ _ _ Hd) by (by eexists).
    split; [|by eauto]. split; [done|]. exists new. eauto 10.
Qed.

Lemma callback_healthy (i : Z) (it : item) (next : nat) (q : list entry)
    (tr0 ms : list action) (c : engine_call) (w : world) :
  channel_delivers → py_getitem items i = Some it → Forall valid_entry q →
  during_run i next q tr0 ms w →
  wp (engine_callback next c) (λ _, during_run i next q tr0 ms)
    (run_aborts i next q tr0 ms) w.
Proof.
  intros Hsend Hit Hvalid Hinv. destruct c as [|n l|r|n l]; simpl.
  - unfold DummyNext.listchain. rewrite !wp_bind.
    eapply wp_mono; [| |by apply fetch_healthy]; [|by intros ab w' (-> & -> & ?)].
    intros u w' (Hinv' & v & q' & Heq & Hq & Hd). simpl.
    rewrite wp_bind, wp_attrs, Hd. done.
  - unfold pytest_runtest_logstart. rewrite wp_sendevent, Hsend.
    by apply during_run_quiet.
  - unfold pytest_runtest_logreport. rewrite wp_bind, wp_get_item_index.
    destruct Hinv as (Hi & Hrest). rewrite Hi.
    rewrite wp_bind, wp_items_getitem, Hit.
    destruct (decide _); [|by split].
    rewrite wp_sendevent, Hsend. apply during_run_quiet; [done..|by split].
  - unfold pytest_runtest_logfinish. rewrite wp_sendevent, Hsend.
    by apply during_run_quiet.
Qed.

Lemma callbacks_healthy (i : Z) (it : item) (next : nat) (q : list entry)
    (tr0 ms : list action) (cs : list engine_call) (w : world) :
  channel_delivers → py_getitem items i = Some it → Forall valid_entry q →
  during_run i next q tr0 ms w →
  wp (engine_callbacks next cs) (λ _, during_run i next q tr0 ms)
    (run_aborts i next q tr0 ms) w.
Proof.
  intros Hsend Hit Hvalid. revert w. induction cs as [|c cs IH]; intros w Hinv; [done|].
  simpl. rewrite wp_bind.
  eapply wp_mono; [| |by eapply callback_healthy]; [|done].
  intros u w' Hinv'. by apply IH.
Qed.

Lemma run_one_test_healthy (i : Z) (it : item) (w : world) :
  channel_delivers → exc_info_pickles →
  nextitem_index w = Some (Idx i) → py_getitem items i = Some it →
  Forall valid_entry (torun w) →
  wp run_one_test
    (λ _ w', ∃ v q' new d,
       torun w = v :: q' ∧ torun w' = q' ∧ nextitem_index w' = Some v ∧
       trace w' = trace w ++ new ∧
       milestones new = [Protocol it; Send (runtest_protocol_complete (VInt i) d)] ∧
       (clock_advances → (0 ≤ d)%Z) ∧
       dequeued new = [v])
    (λ ab w', ab = ab_blocked ∧ torun w = [] ∧
       ∃ new, trace w' = trace w ++ new ∧ dequeued new = [] ∧
         (milestones new = [Protocol it] ∨
          ∃ d, milestones new = [Protocol it; Send (runtest_protocol_complete (VInt i) d)] ∧
               (clock_advances → (0 ≤ d)%Z))) w.
Proof.
  intros Hsend Hpickle Hn Hit Hvalid. unfold run_one_test.
  rewrite wp_bind, wp_read, Hn, wp_bind, wp_modify, wp_bind, wp_items_getitem, Hit.
  unfold worker_title.
  rewrite wp_bind, wp_perform, wp_bind, wp_time_now, wp_bind, wp_modify, wp_bind, wp_new.
  rewrite wp_bind.
  set (title := Title _). set (t0 := time_time _).
  set (next := length _). set (w1 := set_heap _ _).
  set (tr0 := trace w ++ [title; Time t0]).
  assert (during_run i next (torun w) tr0 [] w1) as Hinv.
  { split; [done|]. exists []. subst w1 tr0. simpl. rewrite <- !app_assoc.
    split; [by rewrite app_nil_r|]. split; [done|]. left.
    split; [|done]. subst next. by rewrite lookup_app_r, Nat.sub_diag. }
  assert (∀ ms w', torun w = [] → during_run i next (torun w) tr0 ms w' →
    ∃ new, trace w' = trace w ++ new ∧ dequeued new = [] ∧ milestones new = ms) as Hblocked.
  { intros ms w' Hq (_ & new & Htr & Hms & [(_ & _ & Hdq)|(v & q' & Hq' & _)]); [|congruence].
    exists ([title; Time t0] ++ new). subst tr0. rewrite Htr, <- app_assoc.
    split; [done|]. split; [by rewrite dequeued_app, Hdq|].
    by rewrite milestones_app. }
  assert (∀ new2, clock_advances → (0 ≤ time_time (tr0 ++ new2) - t0)%Z) as Hduration.
  { intros new2 Hclock. subst t0 tr0. simpl.
    specialize (Hclock (trace w ++ [title]) (Time (time_time (trace w ++ [title])) :: new2)).
    rewrite <- app_assoc in Hclock. simpl in Hclock. rewrite <- app_assoc. simpl. lia. }
  match goal with |- wp _ ?Q _ _ => set (Qtail := Q) end.
  assert (∀ w2, during_run i next (torun w) tr0 [Protocol it] w2 → Qtail tt w2) as Htail.
  { intros w2 Hinv2. subst Qtail. cbv beta.
    pose proof Hinv2 as (_ & new2 & Htr2 & _).
    rewrite wp_bind, wp_time_now, wp_bind, wp_perform, wp_bind, wp_get_item_index.
    set (t1 := time_time (trace w2)).
    assert (clock_advances → (0 ≤ t1 - t0)%Z) as Hd.
    { subst t1. rewrite Htr2. apply Hduration. }
    apply (during_run_quiet _ _ _ _ _ (Time t1)) in Hinv2; [|done..].
    apply (during_run_quiet _ _ _ _ _ (Title "[pytest-xdist idle]")) in Hinv2; [|done..].
    pose proof Hinv2 as (Hi & _). rewrite Hi.
    rewrite wp_bind, wp_sendevent, Hsend. simpl index_value.
    apply (during_run_record _ _ _ _ _
             (Send (runtest_protocol_complete (VInt i) (t1 - t0)))) in Hinv2; [|done].
    unfold DummyNext._next_index. rewrite !wp_bind.
    eapply wp_mono; [| |by apply fetch_healthy]; cbv beta.
    - intros u w3 ((Hi3 & new & Htr & Hms & Hcase) & v & q' & Hq & Hq3 & Hd3).
      rewrite wp_bind, wp_attrs, Hd3. simpl.
      exists v, q', ([title; Time t0] ++ new), (t1 - t0)%Z.
      destruct Hcase as [(Hd' & _)|(v' & q'' & Hq' & Hd' & _ & Hdq)]; [congruence|].
      assert (v' = v) as -> by congruence.
      repeat split; try done.
      simpl. subst tr0. by rewrite Htr, <- app_assoc.
    - intros ab w3 (-> & Hq & Hinv3).
      destruct (Hblocked _ _ Hq Hinv3) as (new & ? & ? & ?).
      split; [done|]. split; [done|]. exists new. split; [done|]. split; [done|].
      right. by exists (t1 - t0)%Z. }
  rewrite wp_try_except. unfold config_hook_pytest_runtest_protocol.
  rewrite wp_bind, wp_read, wp_bind, wp_perform, wp_bind.
  apply (during_run_record _ _ _ _ _ (Protocol it)) in Hinv; [|done].
  assert (∀ e w2, during_run i next (torun w) tr0 [Protocol it] w2 →
    wp (x ← lift_outcome (pickle_dumps_exc_info e); sendevent (exception x)) Qtail
      (λ ab w', ab = ab_blocked ∧ torun w = [] ∧
         ∃ new, trace w' = trace w ++ new ∧ dequeued new = [] ∧
           (milestones new = [Protocol it] ∨
            ∃ d, milestones new = [Protocol it; Send (runtest_protocol_complete (VInt i) d)] ∧
                 (clock_advances → (0 ≤ d)%Z))) w2) as Hhandler.
  { intros e w2 Hinv2. rewrite wp_bind, wp_lift_outcome.
    destruct (Hpickle e) as [x ->]. rewrite wp_sendevent, Hsend.
    apply Htail. by apply during_run_quiet. }
  eapply wp_mono; [| |by eapply callbacks_healthy].
  - intros u w2 Hinv2. cbv beta. destruct (engine_raises _) as [e|].
    + rewrite wp_raise. simpl. by apply Hhandler.
    + rewrite wp_ret. by apply Htail.
  - intros [e| |] w2 Hab; simpl in *; [by apply Hhandler| |done].
    destruct Hab as [Hq Hinv2].
    destruct (Hblocked _ _ Hq Hinv2) as (new & ? & ? & ?). eauto 10.
Qed.

End loop_facts.

(** ** What a test adds to the trace *)

Section callback_facts.
Context `{Env}.

Lemma in_callbacks_record (i : Z) (tr0 : list action) (a : action) (w : world) :
  callback_action i a → in_callbacks i tr0 w → in_callbacks i tr0 (record_action a w).
Proof.
  intros Ha (Hi & new & Htr & Hall). split; [done|].
  exists (new ++ [a]). simpl. rewrite Htr, <- app_assoc. split; [done|].
  apply Forall_app. split; [done|]. by constructor.
Qed.

Lemma fetch_in_callbacks (i : Z) (tr0 : list action) (next : nat) (w : world) :
  in_callbacks i tr0 w →
  wp (DummyNext._fetch next) (λ _, in_callbacks i tr0) (λ _, in_callbacks i tr0) w.
Proof.
  intros Hinv. unfold wp.
  destruct (heap w !! next) as [d|] eqn:Hd.
  - destruct (dn_nextitem_index d) as [v|] eqn:Hv.
    + by rewrite (fetch_resolved _ _ _ Hd) by (by eexists).
    + rewrite (fetch_unresolved _ _ _ Hd Hv). simpl.
      apply (in_callbacks_record _ _ (Send runtest_need_work)) in Hinv; [|done].
      destruct (channel_send _ _); [done|].
      destruct (torun w) as [|v q]; [done|].
      assert (in_callbacks i tr0
        (record_action (Get v) (set_torun q (record_action (Send runtest_need_work) w)))).
      { by apply (in_callbacks_record _ _ (Get v)). }
      destruct v as [z|]; simpl; [|done]. by destruct (py_getitem items z).
  - unfold DummyNext._fetch. rewrite run_bind. unfold DummyNext.attrs. by rewrite Hd.
Qed.

Lemma callback_in_callbacks (i : Z) (tr0 : list action) (next : nat)
    (c : engine_call) (w : world) :
  in_callbacks i tr0 w →
  wp (engine_callback next c) (λ _, in_callbacks i tr0) (λ _, in_callbacks i tr0) w.
Proof.
  intros Hinv. destruct c as [|n l|r|n l]; simpl.
  - unfold DummyNext.listchain. rewrite !wp_bind.
    eapply wp_mono; [| |by apply fetch_in_callbacks]; [|done].
    intros u w' Hinv'. cbv beta. rewrite wp_bind, wp_attrs.
    by destruct (heap w' !! next).
  - unfold pytest_runtest_logstart. rewrite wp_sendevent.
    apply (in_callbacks_record _ _ (Send (logstart n l))) in Hinv; [|done].
    by destruct (channel_send _ _).
  - unfold pytest_runtest_logreport. rewrite wp_bind, wp_get_item_index.
    pose proof Hinv as (Hi & _). rewrite Hi.
    rewrite wp_bind, wp_items_getitem.
    destruct (py_getitem items i) as [it|] eqn:Hit; [|done].
    destruct (decide _) as [Hid|]; [|done].
    rewrite wp_sendevent.
    apply (in_callbacks_record _ _ (Send (testreport (report_data i r)))) in Hinv.
    + by destruct (channel_send _ _).
    + simpl. eauto.
  - unfold pytest_runtest_logfinish. rewrite wp_sendevent.
    apply (in_callbacks_record _ _ (Send (logfinish n l))) in Hinv; [|done].
    by destruct (channel_send _ _).
Qed.

Lemma callbacks_in_callbacks (i : Z) (tr0 : list action) (next : nat)
    (cs : list engine_call) (w : world) :
  in_callbacks i tr0 w →
  wp (engine_callbacks next cs) (λ _, in_callbacks i tr0) (λ _, in_callbacks i tr0) w.
Proof.
  revert w. induction cs as [|c cs IH]; intros w Hinv; [done|].
  simpl. rewrite wp_bind.
  eapply wp_mono; [| |by apply callback_in_callbacks]; [|done].
  intros u w' Hinv'. by apply IH.
Qed.

(** The call of the hook: the worker records it and then acts in the
    calls of the engine. *)
Lemma hook_in_callbacks (i : Z) (it : item) (next : nat) (w : world) :
  item_index w = Some (Some (Idx i)) →
  wp (config_hook_pytest_runtest_protocol it next)
    (λ _, in_callbacks i (trace w ++ [Protocol it]))
    (λ _, in_callbacks i (trace w ++ [Protocol it])) w.
Proof.
  intros Hi. unfold config_hook_pytest_runtest_protocol.
  rewrite wp_bind, wp_read, wp_bind, wp_perform, wp_bind.
  eapply wp_mono; [| |apply (callbacks_in_callbacks i (trace w ++ [Protocol it]))].
  - intros u w' Hinv. cbv beta. by destruct (engine_raises _).
  - done.
  - split; [done|]. exists []. by rewrite app_nil_r.
Qed.

Lemma next_index_in_callbacks (i : Z) (tr0 : list action) (next : nat) (w : world) :
  in_callbacks i tr0 w →
  wp (DummyNext._next_index next) (λ _, in_callbacks i tr0) (λ _, in_callbacks i tr0) w.
Proof.
  intros Hinv. unfold DummyNext._next_index. rewrite wp_bind.
  eapply wp_mono; [| |by apply fetch_in_callbacks]; [|done].
  intros u w' Hinv'. cbv beta. rewrite wp_bind, wp_attrs.
  by destruct (heap w' !! next).
Qed.

(** The trace of a test that ran to its end. *)
Lemma run_one_test_trace (i : Z) (it : item) (w : world) :
  nextitem_index w = Some (Idx i) → py_getitem items i = Some it →
  let title := Title ("[pytest-xdist running] " +:+ nodeid it) in
  let t0 := time_time (trace w ++ [title]) in
  let w1 := World (torun w) None (Some (Some (Idx i)))
              (heap w ++ [DummyNextObj None None]) (trace w ++ [title; Time t0]) in
  wp run_one_test
    (λ _ w', ∃ cb exc tail,
       let t1 := time_time (trace w1 ++ [Protocol it] ++ cb ++ exc) in
       trace w' = trace w1 ++ [Protocol it] ++ cb ++ exc ++
                  [Time t1; Title "[pytest-xdist idle]";
                   Send (runtest_protocol_complete (VInt i) (t1 - t0))] ++ tail ∧
       Forall (callback_action i) cb ∧ Forall (callback_action i) tail ∧
       trace (config_hook_pytest_runtest_protocol it (length (heap w)) w1).2 =
         trace w1 ++ [Protocol it] ++ cb ∧
       match (config_hook_pytest_runtest_protocol it (length (heap w)) w1).1 with
       | Ok _ => exc = []
       | Raise e => ∃ x, pickle_dumps_exc_info e = Returns x ∧ exc = [Send (exception x)]
       | _ => False
       end)
    (λ _ _, True) w.
Proof.
  intros Hn Hit title t0 w1. unfold run_one_test.
  rewrite wp_bind, wp_read, Hn, wp_bind, wp_modify, wp_bind, wp_items_getitem, Hit.
  unfold worker_title.
  rewrite wp_bind, wp_perform, wp_bind, wp_time_now, wp_bind, wp_modify, wp_bind, wp_new.
  rewrite wp_bind.
  change (set_heap _ _) with
    (World (torun w) None (Some (Some (Idx i)))
       (heap w ++ [DummyNextObj None None])
       ((trace w ++ [title]) ++ [Time t0])).
  replace ((trace w ++ [title]) ++ [Time t0]) with (trace w ++ [title; Time t0])
    by (by rewrite <- app_assoc).
  fold w1. simpl length.
  set (next := length (heap w)).
  match goal with |- wp _ ?Q _ _ => set (Qtail := Q) end.
  assert (∀ cb exc w2, trace w2 = trace w1 ++ [Protocol it] ++ cb ++ exc →
    item_index w2 = Some (Some (Idx i)) →
    Forall (callback_action i) cb →
    trace (config_hook_pytest_runtest_protocol it next w1).2 =
      trace w1 ++ [Protocol it] ++ cb →
    match (config_hook_pytest_runtest_protocol it next w1).1 with
    | Ok _ => exc = []
    | Raise e => ∃ x, pickle_dumps_exc_info e = Returns x ∧ exc = [Send (exception x)]
    | _ => False
    end →
    Qtail tt w2) as Htail.
  { intros cb exc w2 Htr2 Hi2 Hcb Hhooktr Hexc. subst Qtail. cbv beta.
    rewrite wp_bind, wp_time_now, wp_bind, wp_perform, wp_bind, wp_get_item_index.
    simpl item_index. rewrite Hi2. rewrite wp_bind, wp_sendevent. simpl index_value.
    set (t1 := time_time (trace w2)).
    set (w3 := record_action (Send _) _).
    assert (in_callbacks i (trace w3) w3) as Hinv3.
    { split; [done|]. exists []. by rewrite app_nil_r. }
    destruct (channel_send _ _); [done|].
    rewrite wp_bind.
    eapply wp_mono; [| |by apply next_index_in_callbacks]; [|done].
    intros n w4 (_ & tail & Htr4 & Htail). rewrite wp_modify.
    exists cb, exc, tail. simpl. rewrite Htr4. subst w3. simpl.
    rewrite Htr2. subst t1. rewrite Htr2.
    split; [|done]. rewrite <- !app_assoc. simpl. by rewrite <- !app_assoc. }
  pose proof (wp_run _ _ _ _ (hook_in_callbacks i it next w1 eq_refl)) as Hhook.
  unfold wp at 1. unfold try_except.
  destruct (config_hook_pytest_runtest_protocol it next w1) as [[[]|e| |] wh] eqn:Ehook;
    simpl in Hhook; try done.
  - destruct Hhook as (Hi & cb & Htr & Hcb).
    apply (Htail cb [] wh); [|done|done|simpl; by rewrite Htr, <- app_assoc|by simpl].
    rewrite Htr, app_nil_r. by rewrite <- app_assoc.
  - destruct Hhook as (Hi & cb & Htr & Hcb). simpl.
    unfold mbind, M_bind.
    destruct (pickle_dumps_exc_info e) as [x|e'] eqn:Hx; simpl; [|done].
    unfold sendevent. destruct (channel_send (trace wh) (exception x)); [done|].
    apply (Htail cb [Send (exception x)]);
      [|done|done|simpl; by rewrite Htr, <- app_assoc|simpl; by eauto].
    simpl. rewrite Htr. rewrite <- !app_assoc. done.
Qed.


Lemma report_data_lookup (i : Z) (r : report) :
  report_data i r !! "item_index" = Some (VInt i) ∧
  report_data i r !! "worker_id" = Some workerid ∧
  report_data i r !! "testrun_uid" = Some testrunuid ∧
  ∀ key, key ∉ ["item_index"; "worker_id"; "testrun_uid"] →
    report_data i r !! key = hook_pytest_report_to_serializable r !! key.
Proof.
  unfold report_data. repeat split.
  - do 2 (rewrite lookup_insert_ne by done). by rewrite lookup_insert_eq.
  - rewrite lookup_insert_ne by done. by rewrite lookup_insert_eq.
  - by rewrite lookup_insert_eq.
  - intros key Hkey. rewrite !lookup_insert_ne; [done|..]; intros <-; apply Hkey;
      set_solver.
Qed.

(** C10.  While the item at index [i] runs, [pytest_runtest_logreport]
    for a report with the node id of that item passes its assertion and
    sends [testreport] with the data of the report and the keys
    [item_index], [worker_id] and [testrun_uid] set to [i], the worker id
    and the id of the test run.  And whatever the engine does, every
    [testreport] event that [run_one_test] adds to the trace is such an
    event, for the index the worker runs and a report with the node id of
    the item at that index. *)
Theorem testreport_carries_the_running_item (w : world) :
  (∀ i it r, item_index w = Some (Some (Idx i)) → py_getitem items i = Some it →
     nodeid it = rep_nodeid r →
     pytest_runtest_logreport r w = sendevent (testreport (report_data i r)) w) ∧
  ∃ new, trace (run_one_test w).2 = trace w ++ new ∧
    ∀ d, Send (testreport d) ∈ new →
      ∃ i it r, nextitem_index w = Some (Idx i) ∧ py_getitem items i = Some it ∧
        nodeid it = rep_nodeid r ∧ d = report_data i r ∧
        d !! "item_index" = Some (VInt i) ∧
        d !! "worker_id" = Some workerid ∧
        d !! "testrun_uid" = Some testrunuid.
Proof.
  split.
  { intros i it r Hi Hit Hid. unfold pytest_runtest_logreport.
    rewrite run_bind. unfold get_item_index. rewrite Hi.
    rewrite run_bind. unfold items_getitem. rewrite Hit. simpl.
    by rewrite decide_True. }
  set (good := λ new : list action, ∀ d, Send (testreport d) ∈ new →
      ∃ i it r, nextitem_index w = Some (Idx i) ∧ py_getitem items i = Some it ∧
        nodeid it = rep_nodeid r ∧ d = report_data i r ∧
        d !! "item_index" = Some (VInt i) ∧
        d !! "worker_id" = Some workerid ∧
        d !! "testrun_uid" = Some testrunuid).
  set (inv := λ w' : world, ∃ new, trace w' = trace w ++ new ∧ good new).
  assert (inv w) as Hinv0.
  { exists []. rewrite app_nil_r. split; [done|]. by intros d ?%elem_of_nil. }
  enough (wp run_one_test (λ _, inv) (λ _, inv) w) as Hwp.
  { apply wp_run in Hwp. by destruct (run_one_test w) as [[]]. }
  assert (∀ a w2, (∀ d, a ≠ Send (testreport d)) → inv w2 → inv (record_action a w2))
    as Hquiet.
  { intros a w2 Ha (new & Htr & Hgood). exists (new ++ [a]). simpl.
    rewrite Htr, <- app_assoc. split; [done|].
    intros d [Hd|Hd%list_elem_of_singleton]%elem_of_app; [by apply Hgood|].
    by destruct (Ha d). }
  unfold run_one_test. rewrite wp_bind, wp_read, wp_bind, wp_modify, wp_bind, wp_items_getitem.
  destruct (nextitem_index w) as [[i|]|] eqn:Hn; try done.
  destruct (py_getitem items i) as [it|] eqn:Hit; [|done].
  assert (∀ w2 w3, inv w2 → in_callbacks i (trace w2) w3 → inv w3) as Hcb.
  { intros w2 w3 (new & Htr & Hgood) (_ & cb & Htr3 & Hall). exists (new ++ cb).
    rewrite Htr3, Htr, <- app_assoc. split; [done|].
    intros d [Hd|Hd]%elem_of_app; [by apply Hgood|].
    rewrite Forall_forall in Hall. destruct (Hall _ Hd) as (r & it' & Hit' & Hid & ->).
    destruct (report_data_lookup i r) as (? & ? & ? & _).
    exists i, it', r. done. }
  unfold worker_title.
  rewrite wp_bind, wp_perform, wp_bind, wp_time_now, wp_bind, wp_modify, wp_bind, wp_new.
  rewrite wp_bind.
  set (w1 := set_heap _ _).
  assert (inv w1) as Hinv1.
  { subst w1. apply (Hquiet (Time _)); [done|]. by apply (Hquiet (Title _)). }
  match goal with |- wp _ ?Q _ _ => set (Qtail := Q) end.
  assert (∀ w2, inv w2 → item_index w2 = Some (Some (Idx i)) → Qtail tt w2) as Htail.
  { intros w2 Hinv2 Hi2. subst Qtail. cbv beta.
    rewrite wp_bind, wp_time_now, wp_bind, wp_perform, wp_bind, wp_get_item_index.
    simpl item_index. rewrite Hi2. rewrite wp_bind, wp_sendevent.
    set (w3 := record_action (Send _) _).
    assert (inv w3) as Hinv3.
    { subst w3. apply Hquiet; [done|]. apply (Hquiet (Title _)); [done|].
      by apply (Hquiet (Time _)). }
    destruct (channel_send _ _); [done|].
    rewrite wp_bind.
    eapply wp_mono; [| |apply (next_index_in_callbacks i (trace w3))].
    - intros n w4 Hin4. rewrite wp_modify.
      destruct (Hcb _ _ Hinv3 Hin4) as (new & Htr & Hgood). by exists new.
    - intros ab w4 Hin4. by eapply Hcb.
    - split; [done|]. exists []. by rewrite app_nil_r. }
  rewrite wp_try_except.
  eapply wp_mono; [| |apply (hook_in_callbacks i it); done].
  - intros u w2 Hin2. apply Htail; [|by destruct Hin2].
    apply (Hcb (record_action (Protocol it) w1)); [by apply Hquiet|exact Hin2].
  - intros ab w2 Hin2.
    assert (inv w2) as Hinv2.
    { apply (Hcb (record_action (Protocol it) w1)); [by apply Hquiet|exact Hin2]. }
    destruct ab as [e| |]; [|done..]. simpl.
    rewrite wp_bind, wp_lift_outcome.
    destruct (pickle_dumps_exc_info e) as [x|e']; [|done].
    rewrite wp_sendevent.
    assert (inv (record_action (Send (exception x)) w2)) as Hinv2' by (by apply Hquiet).
    destruct (channel_send _ _); [done|].
    apply Htail; [done|]. by destruct Hin2.
Qed.

End callback_facts.

(** ** Exceptions of the engine *)

Section failure_facts.
Context `{Env}.

(** An exception of the hook that [pickle] refuses leaves [run_one_test]
    as what [pickle] raises: nothing is sent, the loop ends. *)
Lemma unpicklable_failure_escapes (i : Z) (it : item) (w wh : world) (e e' : exn) :
  nextitem_index w = Some (Idx i) → py_getitem items i = Some it →
  let title := Title ("[pytest-xdist running] " +:+ nodeid it) in
  let t0 := time_time (trace w ++ [title]) in
  let w1 := World (torun w) None (Some (Some (Idx i)))
              (heap w ++ [DummyNextObj None None]) (trace w ++ [title; Time t0]) in
  config_hook_pytest_runtest_protocol it (length (heap w)) w1 = (Raise e, wh) →
  pickle_dumps_exc_info e = Raises e' →
  run_one_test w = (Raise e', wh).
Proof.
  intros Hn Hit title t0 w1 Hhook Hpickle.
  enough (wp run_one_test (λ _ _, False) (λ ab w', ab = ab_raise e' ∧ w' = wh) w) as Hwp.
  { apply wp_run in Hwp. destruct (run_one_test w) as [[[]|e2| |] w2]; simpl in Hwp;
      try done; destruct Hwp as [Hab ->]; congruence. }
  unfold run_one_test.
  rewrite wp_bind, wp_read, Hn, wp_bind, wp_modify, wp_bind, wp_items_getitem, Hit.
  unfold worker_title.
  rewrite wp_bind, wp_perform, wp_bind, wp_time_now, wp_bind, wp_modify, wp_bind, wp_new.
  rewrite wp_bind.
  change (set_heap _ _) with
    (World (torun w) None (Some (Some (Idx i)))
       (heap w ++ [DummyNextObj None None])
       ((trace w ++ [title]) ++ [Time t0])).
  replace ((trace w ++ [title]) ++ [Time t0]) with (trace w ++ [title; Time t0])
    by (by rewrite <- app_assoc).
  fold w1. simpl length. unfold wp at 1, try_except. rewrite Hhook. simpl.
  by rewrite run_bind, Hpickle.
Qed.

(** An exception of the hook in a healthy environment: the [exception]
    event is sent, then [runtest_protocol_complete], and the worker goes
    on with the next entry of the queue. *)
Lemma caught_failure_is_reported (i : Z) (it : item) (w wh : world) (e : exn)
    (x : list Byte.byte) (v : entry) (q : list entry) :
  channel_delivers → exc_info_pickles →
  nextitem_index w = Some (Idx i) → py_getitem items i = Some it →
  torun w = v :: q → Forall valid_entry (torun w) →
  let title := Title ("[pytest-xdist running] " +:+ nodeid it) in
  let t0 := time_time (trace w ++ [title]) in
  let w1 := World (torun w) None (Some (Some (Idx i)))
              (heap w ++ [DummyNextObj None None]) (trace w ++ [title; Time t0]) in
  config_hook_pytest_runtest_protocol it (length (heap w)) w1 = (Raise e, wh) →
  pickle_dumps_exc_info e = Returns x →
  (run_one_test w).1 = Ok tt ∧
  nextitem_index (run_one_test w).2 = Some v ∧
  ∃ t1 tail,
    trace (run_one_test w).2 =
      trace wh ++ [Send (exception x); Time t1; Title "[pytest-xdist idle]";
                   Send (runtest_protocol_complete (VInt i) (t1 - t0))] ++ tail.
Proof.
  intros Hsend Hpickle Hn Hit Hq Hvalid title t0 w1 Hhook Hx.
  pose proof (wp_run _ _ _ _ (run_one_test_healthy i it w Hsend Hpickle Hn Hit Hvalid))
    as Hhealthy.
  pose proof (wp_run _ _ _ _ (run_one_test_trace i it w Hn Hit)) as Htrace.
  fold title t0 w1 in Htrace. rewrite Hhook in Htrace. simpl in Htrace.
  destruct (run_one_test w) as [[[]|e2| |] w2]; simpl in *;
    try (by destruct Hhealthy as (? & ? & _); congruence).
  destruct Hhealthy as (v' & q' & _ & _ & Hq' & _ & Hn2 & _).
  assert (v' = v) as -> by congruence.
  split; [done|]. split; [done|].
  destruct Htrace as (cb & exc & tail & Htr & Hall & _ & Htrh & x' & Hx' & ->).
  assert (x' = x) as -> by congruence.
  exists (time_time (trace w1 ++ [Protocol it] ++ cb ++ [Send (exception x)])), tail.
  rewrite Htr, Htrh. simpl. by rewrite <- !app_assoc.
Qed.

End failure_facts.

(** ** The main loop *)

Section main_loop_facts.
Context `{Env}.

Lemma runtestloop_while_mark (fuel : nat) (w : world) :
  nextitem_index w = Some SHUTDOWN_MARK → runtestloop_while fuel w = (Ok tt, w).
Proof.
  intros Hn. destruct fuel; simpl; rewrite run_bind; simpl; rewrite Hn;
    by rewrite decide_True.
Qed.

(** The loop from a current index on, in a healthy environment. *)
Lemma runtestloop_while_healthy (q : list entry) :
  channel_delivers → exc_info_pickles →
  ∀ (fuel : nat) (w : world) (i : Z) (it : item),
  nextitem_index w = Some (Idx i) → py_getitem items i = Some it →
  torun w = q → Forall valid_entry q → length q < fuel →
  ∃ new runs pending,
    trace (runtestloop_while fuel w).2 = trace w ++ new ∧
    milestones new = run_milestones runs ++ pending ∧
    Forall (λ '(i, it, d), py_getitem items i = Some it ∧
                           (clock_advances → (0 ≤ d)%Z)) runs ∧
    if decide (SHUTDOWN_MARK ∈ q) then
      (runtestloop_while fuel w).1 = Ok tt ∧
      dequeued new = (Idx <$> before_mark q) ++ [SHUTDOWN_MARK] ∧
      runs.*1.*1 = i :: before_mark q ∧ pending = []
    else
      (runtestloop_while fuel w).1 = Blocked ∧ dequeued new = q ∧
      (pending = [] ∨ ∃ it', pending = [Protocol it']).
Proof.
  intros Hsend Hpickle. induction q as [|v q IH]; intros fuel w i it Hn Hit Hq Hvalid Hfuel;
    (destruct fuel as [|fuel]; [simpl in Hfuel; lia|]);
    pose proof (wp_run _ _ _ _ (run_one_test_healthy i it w Hsend Hpickle Hn Hit
                  ltac:(by rewrite Hq))) as Hrun;
    simpl; rewrite run_bind; simpl; rewrite Hn;
    rewrite (decide_False (P := Some (Idx i) = Some SHUTDOWN_MARK)) by done;
    rewrite run_bind;
    destruct (run_one_test w) as [[[]|e| |] w1]; simpl in Hrun;
    try (by destruct Hrun as [? ?]);
    try (destruct Hrun as (_ & Hrun & _); congruence).
  - destruct Hrun as (v & q' & _ & _ & Hq' & _). congruence.
  - destruct Hrun as (_ & _ & new & Htr & Hdq & [Hms|(d & Hms & Hd)]).
    + exists new, [], [Protocol it]. rewrite Hms. eauto 10.
    + exists new, [(i, it, d)], []. rewrite Hms. repeat split; eauto.
  - destruct Hrun as (v' & q' & new1 & d & Hq' & Hq1 & Hn1 & Htr1 & Hms1 & Hd & Hdq1).
    assert (v' = v ∧ q' = q) as [-> ->] by (split; congruence). clear Hq'.
    apply Forall_cons_1 in Hvalid as [Hv Hvalid]. simpl in Hfuel.
    destruct v as [j|].
    + destruct Hv as [itj Hj].
      specialize (IH fuel w1 j itj Hn1 Hj Hq1 Hvalid ltac:(lia)).
      destruct IH as (new2 & runs & pending & Htr2 & Hms2 & Hall & IH).
      exists (new1 ++ new2), ((i, it, d) :: runs), pending.
      rewrite Htr2, Htr1, <- app_assoc. split; [done|].
      rewrite dequeued_app, Hdq1, milestones_app, Hms1, Hms2.
      split; [done|]. split; [by constructor|].
      destruct (decide (SHUTDOWN_MARK ∈ q)) as [Hin|Hout].
      * rewrite decide_True by (by right).
        destruct IH as (Hr & Hdq2 & Hruns & ->).
        rewrite Hdq2, !fmap_cons, Hruns. done.
      * rewrite decide_False by (by intros [?|?]%elem_of_cons).
        destruct IH as (Hr & Hdq2 & Hpending). by rewrite Hdq2.
    + rewrite (runtestloop_while_mark _ _ Hn1). simpl.
      exists new1, [(i, it, d)], []. rewrite Htr1, Hdq1, Hms1.
      repeat split; eauto.
Qed.

(** [pytest_runtestloop] in a healthy environment: it returns when the
    queue holds the mark and waits for ever when it does not. *)
Lemma pytest_runtestloop_healthy (fuel : nat) (w : world) :
  channel_delivers → exc_info_pickles →
  Forall valid_entry (torun w) → length (torun w) ≤ fuel →
  ∃ new runs pending,
    trace (pytest_runtestloop fuel w).2 = trace w ++ new ∧
    milestones new = run_milestones runs ++ pending ∧
    Forall (λ '(i, it, d), py_getitem items i = Some it ∧
                           (clock_advances → (0 ≤ d)%Z)) runs ∧
    if decide (SHUTDOWN_MARK ∈ torun w) then
      (pytest_runtestloop fuel w).1 = Ok true ∧
      dequeued new = (Idx <$> before_mark (torun w)) ++ [SHUTDOWN_MARK] ∧
      runs.*1.*1 = before_mark (torun w) ∧ pending = []
    else
      (pytest_runtestloop fuel w).1 = Blocked ∧ dequeued new = torun w ∧
      (pending = [] ∨ ∃ it', pending = [Protocol it']).
Proof.
  intros Hsend Hpickle Hvalid Hfuel. unfold pytest_runtestloop.
  rewrite run_bind. unfold torun_get. destruct (torun w) as [|v q] eqn:Hq.
  { exists [], [], []. rewrite app_nil_r.
    rewrite decide_False by (by intros ?%elem_of_nil). eauto 10. }
  rewrite run_bind. simpl. rewrite run_bind.
  apply Forall_cons_1 in Hvalid as [Hv Hvalid]. simpl in Hfuel.
  set (w0 := set_nextitem_index _ _).
  destruct v as [i|].
  - destruct Hv as [it Hit].
    destruct (runtestloop_while_healthy q Hsend Hpickle fuel w0 i it
                eq_refl Hit eq_refl Hvalid ltac:(lia))
      as (new & runs & pending & Htr & Hms & Hall & Hloop).
    exists (Get (Idx i) :: new), runs, pending.
    destruct (runtestloop_while fuel w0) as [r w1]. simpl in Htr, Hloop.
    assert (trace w1 = trace w ++ Get (Idx i) :: new) as Htr1.
    { rewrite Htr. subst w0. simpl. by rewrite <- app_assoc. }
    assert (dequeued (Get (Idx i) :: new) = Idx i :: dequeued new) as -> by done.
    assert (milestones (Get (Idx i) :: new) = milestones new) as -> by done.
    destruct (decide (SHUTDOWN_MARK ∈ q)) as [Hin|Hout].
    + rewrite decide_True by (by right).
      destruct Hloop as (-> & Hdq & Hruns & ->). simpl. rewrite Hdq. done.
    + rewrite decide_False by (by intros [?|?]%elem_of_cons).
      destruct Hloop as (-> & Hdq & Hpending). simpl. by rewrite Hdq.
  - rewrite (runtestloop_while_mark fuel w0 eq_refl). simpl.
    exists [Get SHUTDOWN_MARK], [], []. eauto 10.
Qed.



End main_loop_facts.

(** ** Concrete runs *)

Lemma sample_channel_delivers engine pickle : @channel_delivers (sample_env engine pickle).
Proof. by intros history ev. Qed.


Lemma pickles_everything engine : @exc_info_pickles (sample_env engine pickles).
Proof. intros e. by eexists. Qed.

Lemma sample_entries_valid engine pickle (q : list entry) :
  Forall (λ v, match v with Idx i => (-3 ≤ i < 3)%Z | SHUTDOWN_MARK => True end) q →
  Forall (@valid_entry (sample_env engine pickle)) q.
Proof.
  intros Hq. eapply Forall_impl; [exact Hq|].
  intros [i|] Hi; [|done]. simpl. unfold py_getitem. simpl.
  destruct (decide (0 ≤ i)%Z).
  - apply lookup_lt_is_Some. simpl. lia.
  - rewrite decide_True by lia. apply lookup_lt_is_Some. simpl. lia.
Qed.

(** C3, on the code.  The engine is interrupted while it runs the second
    of three items and [pickle] refuses what [sys.exc_info()] returns.
    The [TypeError] of [pickle] leaves the [except] clause, [run_one_test]
    and the loop: no [exception] event is sent, the interrupted item gets no
    [runtest_protocol_complete] event, and the third item, still in the
    queue with the mark, is never run. *)
Theorem unpicklable_failure_ends_the_loop :
  let run := @pytest_runtestloop unpicklable_env 4
               (initial_world [Idx 0; Idx 1; Idx 2; SHUTDOWN_MARK]) in
  run.1 = Raise TypeError ∧
  torun run.2 = [Idx 2; SHUTDOWN_MARK] ∧
  nodeid <$> executed (trace run.2) = ["test_a.py::test_one"; "test_a.py::test_two"] ∧
  completions (trace run.2) = [(VInt 0, 9%Z)] ∧
  Forall (λ a, ∀ x, a ≠ Send (exception x)) (trace run.2).
Proof.
  vm_compute. repeat split; try reflexivity.
  repeat constructor; by intros x.
Qed.

(** With a [pickle] that takes the exception, the same run goes on. *)
Example picklable_failure_is_contained :
  let run := @pytest_runtestloop interrupted_env 4
               (initial_world [Idx 0; Idx 1; Idx 2; SHUTDOWN_MARK]) in
  run.1 = Ok true ∧
  nodeid <$> executed (trace run.2) =
    ["test_a.py::test_one"; "test_a.py::test_two"; "test_b.py::test_three"] ∧
  completions (trace run.2) = [(VInt 0, 9%Z); (VInt 1, 3%Z); (VInt 2, 9%Z)].
Proof. by vm_compute. Qed.

(** C2, on the code.  The engine is interrupted in the teardown of the
    second of two items, after it asked for the chain of the next item,
    and [pickle] refuses what [sys.exc_info()] returns; the channel
    delivers, the clock advances and the indices are those of items.  The
    mark was taken from the queue, by the [DummyNext] object of the
    interrupted item, and yet the loop does not return: the [TypeError] of
    [pickle] leaves it.  And the engine ran two items where one
    [runtest_protocol_complete] event was sent: the interrupted item has
    none. *)
Theorem main_loop_raises_past_the_mark :
  let run := @pytest_runtestloop late_interrupt_env 3
               (initial_world [Idx 0; Idx 1; SHUTDOWN_MARK]) in
  run.1 = Raise TypeError ∧
  dequeued (trace run.2) = [Idx 0; Idx 1; SHUTDOWN_MARK] ∧
  torun run.2 = [] ∧
  nodeid <$> executed (trace run.2) = ["test_a.py::test_one"; "test_a.py::test_two"] ∧
  (completions (trace run.2)).*1 = [VInt 0].
Proof. vm_compute. repeat split; reflexivity. Qed.

(** C4, as stated, fails: after a first call that took an index out of
    range from the queue and raised [IndexError], the object holds no
    index, and the second call sends [runtest_need_work] again. *)
Lemma bad_index_makes_it_ask_twice :
  ¬ @asks_at_most_once passing_env 0
      (World [Idx 7; Idx 1; SHUTDOWN_MARK] None (Some (Some (Idx 0)))
         [DummyNextObj None None] []).
Proof.
  intros Hclaim. specialize (Hclaim query_listchain query_next_index).
  vm_compute in Hclaim. lia.
Qed.



(** ** The theorems at concrete inputs *)

Lemma steal_partitions_pending_witness :
  let w := initial_world [Idx 2; Idx 5; SHUTDOWN_MARK; Idx 7; Idx 9] in
  torun (@steal passing_env [5; 9; 11]%Z w).2 = [Idx 2; SHUTDOWN_MARK; Idx 7] ∧
  trace (@steal passing_env [5; 9; 11]%Z w).2 = [Send (unscheduled [5; 9]%Z)] ∧
  (@steal passing_env [5; 9; 11]%Z w).1 = Ok tt.
Proof.
  intros w.
  destruct (@steal_partitions_pending passing_env [5; 9; 11]%Z w)
    as (Hq & _ & _ & Htr & _ & _ & Hok & _).
  split; [rewrite Hq; by vm_compute|].
  split; [rewrite Htr; by vm_compute|].
  apply Hok. reflexivity.
Defined.


Lemma dummy_next_asks_once_witness :
  let w := World [Idx 1; SHUTDOWN_MARK] None (Some (Some (Idx 0)))
             [DummyNextObj None None] [] in
  let it := Item "test_a.py::test_two" ["test_a.py"] in
  @ask_all passing_env 0 [query_listchain; query_next_index; query_listchain] w =
  (Ok [answer_chain ["test_a.py"]; answer_index (Some (Idx 1)); answer_chain ["test_a.py"]],
   World [SHUTDOWN_MARK] None (Some (Some (Idx 0)))
     [DummyNextObj (Some it) (Some (Idx 1))]
     [Send runtest_need_work; Get (Idx 1)]).
Proof.
  intros w it.
  rewrite (@dummy_next_asks_once passing_env 0 (DummyNextObj None None)
             query_listchain [query_next_index; query_listchain] w).
  - reflexivity.
  - reflexivity.
  - reflexivity.
  - reflexivity.
  - apply sample_entries_valid. repeat constructor; lia.
Defined.

Lemma every_detail_has_an_entry_witness :
  let wm := sample_warning (VTuple [VInt 1; VStr "x"]) in
  "file" ∈ python3_details ∧ auxiliary "file" ∧
  ∃ result,
    serialize_warning_message sample_dumps sample_repr python3_details wm = Returns result ∧
    result !! "file" = Some (VStr "<_io.TextIOWrapper name='<stderr>'>").
Proof.
  intros wm.
  assert ("file" ∈ python3_details) as Hin by (apply (bool_decide_unpack _); by vm_compute).
  assert (auxiliary "file") as Haux by (apply (bool_decide_unpack _); by vm_compute).
  split; [done|]. split; [done|].
  pose proof (every_detail_has_an_entry sample_dumps sample_repr python3_details
                wm "file" Hin Haux) as Hentry.
  destruct (serialize_warning_message sample_dumps sample_repr python3_details wm)
    as [result|e] eqn:E.
  - exists result. split; [done|]. by destruct Hentry.
  - by vm_compute in E.
Defined.





Lemma testreport_carries_the_running_item_witness :
  let w := World [] None (Some (Some (Idx 1))) [] [] in
  let r := Report "test_a.py::test_two" (VStr "call") in
  @pytest_runtest_logreport passing_env r w =
  (Ok tt, record_action (Send (testreport (@report_data passing_env 1 r))) w) ∧
  @report_data passing_env 1 r !! "item_index" = Some (VInt 1).
Proof.
  intros w r.
  destruct (@testreport_carries_the_running_item passing_env w) as [Hreport _].
  split.
  - by rewrite (Hreport 1%Z (Item "test_a.py::test_two" ["test_a.py"]) r eq_refl eq_refl eq_refl).
  - by vm_compute.
Defined.

(** * Further properties *)

(** ** The dispatcher *)

Section dispatch_facts.
Context `{Env}.

Lemma put_all_run (l : list Z) (w : world) :
  put_all l w = (Ok tt, set_torun (torun w ++ (Idx <$> l)) w).
Proof.
  revert w. induction l as [|i l IH]; intros w.
  - simpl. rewrite app_nil_r. by destruct w.
  - simpl. rewrite run_bind. simpl. rewrite IH. simpl.
    by rewrite <- app_assoc.
Qed.

(** X1.  A command that is no steal takes nothing from the queue and
    sends nothing: the queue afterwards is the old queue followed by what
    the command asks to run, in the order given ([runtests]), by the mark
    ([shutdown], and the end marker of the channel), or by nothing (a
    command of another name); the trace and the other attributes are as
    before, and the call returns. *)
Theorem commands_only_append (c : command) (w : world) :
  (∀ indices, c ≠ Steal indices) →
  handle_command c w =
  (Ok tt,
   set_torun (torun w ++
              match c with
              | RunTests indices => Idx <$> indices
              | RunTestsAll => Idx ∘ Z.of_nat <$> seq 0 (length items)
              | EndMarker | Shutdown => [SHUTDOWN_MARK]
              | _ => []
              end) w).
Proof.
  intros Hc. destruct c as [|l| | |l|n]; simpl.
  - done.
  - apply put_all_run.
  - rewrite put_all_run. by rewrite <- list_fmap_compose.
  - done.
  - by destruct (Hc l).
  - rewrite app_nil_r. by destruct w.
Qed.

(** X2.  [runtests_all] enqueues the indices of all items, each once, in
    the order of the items, and each of them resolves to its item. *)
Theorem runtests_all_enqueues_every_item (w : world) :
  let w' := (handle_command RunTestsAll w).2 in
  ∃ added, torun w' = torun w ++ added ∧
    length added = length items ∧
    Forall valid_entry added ∧
    ∀ k : nat, added !! k = (λ _, Idx (Z.of_nat k)) <$> items !! k.
Proof.
  simpl. rewrite put_all_run. simpl.
  exists (Idx <$> (Z.of_nat <$> seq 0 (length items))). split; [done|].
  split; [by rewrite !length_fmap, length_seq|]. split.
  - apply Forall_fmap, Forall_fmap, Forall_forall. intros k Hk.
    apply elem_of_seq in Hk. simpl. unfold py_getitem.
    rewrite decide_True by lia. rewrite Nat2Z.id. apply lookup_lt_is_Some. lia.
  - intros k. rewrite !list_lookup_fmap.
    destruct (items !! k) as [it|] eqn:Hk; simpl.
    + apply lookup_lt_Some in Hk. by rewrite lookup_seq_lt.
    + apply lookup_ge_None in Hk. by rewrite lookup_seq_ge.
Qed.

End dispatch_facts.

(** ** More on the steal protocol *)

Section steal_more.
Context `{Env}.

Lemma requested_pending (S : gset Z) (q : list entry) :
  Idx <$> filter (.∈ S) (pending_indices q) = filter (requested S) q.
Proof.
  induction q as [|[i|] q IH]; [done|..].
  - change (pending_indices (Idx i :: q)) with (i :: pending_indices q).
    destruct (decide (i ∈ S)) as [Hi|Hi].
    + rewrite !filter_cons_True by done. by rewrite fmap_cons, IH.
    + rewrite !filter_cons_False by done. done.
  - rewrite (filter_cons_False (requested S)) by (simpl; tauto). done.
Qed.

(** X3.  A steal loses nothing and doubles nothing: the entries left in
    the queue together with the indices reported as unscheduled are the
    entries of the old queue, each as often as before. *)
Theorem steal_conserves_entries (indices : list Z) (w : world) :
  let S : gset Z := list_to_set indices in
  let stolen := filter (.∈ S) (pending_indices (torun w)) in
  trace (steal indices w).2 = trace w ++ [Send (unscheduled stolen)] ∧
  torun (steal indices w).2 ++ (Idx <$> stolen) ≡ₚ torun w.
Proof.
  intros S stolen. rewrite steal_run. simpl. split; [done|].
  subst stolen. rewrite requested_pending.
  rewrite (comm (++)). apply filter_app_complement.
Qed.

Lemma none_stolen (indices : list Z) (l : list Z) :
  Forall (.∉ indices) l → filter (.∈ (list_to_set indices : gset Z)) l = [].
Proof.
  induction l as [|i l IH]; intros Hnone; [done|].
  apply Forall_cons_1 in Hnone as [Hi Hnone].
  rewrite filter_cons_False by (by rewrite elem_of_list_to_set). by apply IH.
Qed.

Lemma all_kept (indices : list Z) (q : list entry) :
  Forall (.∉ indices) (pending_indices q) →
  filter (λ v, ¬ requested (list_to_set indices) v) q = q.
Proof.
  induction q as [|[i|] q IH]; intros Hnone; [done|..].
  - apply Forall_cons_1 in Hnone as [Hi Hnone].
    rewrite filter_cons_True by (simpl; by rewrite elem_of_list_to_set).
    f_equal. by apply IH.
  - rewrite filter_cons_True by (simpl; tauto). f_equal. by apply IH.
Qed.

(** X4.  A steal that asks for no pending index, an empty one among them,
    leaves the queue as it is and reports an empty list. *)
Theorem steal_of_nothing_pending (indices : list Z) (w : world) :
  Forall (.∉ indices) (pending_indices (torun w)) →
  torun (steal indices w).2 = torun w ∧
  trace (steal indices w).2 = trace w ++ [Send (unscheduled [])].
Proof.
  intros Hnone. rewrite steal_run. simpl.
  rewrite (none_stolen _ _ Hnone). split; [|done]. by apply all_kept.
Qed.

(** X5.  Stealing the same indices again steals nothing more: the second
    steal leaves the queue of the first and reports an empty list. *)
Theorem steal_twice (indices : list Z) (w : world) :
  let w1 := (steal indices w).2 in
  torun (steal indices w1).2 = torun w1 ∧
  trace (steal indices w1).2 = trace w1 ++ [Send (unscheduled [])].
Proof.
  intros w1.
  assert (Forall (.∉ indices) (pending_indices (torun w1))) as Hnone.
  { subst w1. rewrite steal_run. simpl. rewrite pending_indices_kept.
    apply Forall_forall. intros i [Hi _]%list_elem_of_filter.
    by rewrite elem_of_list_to_set in Hi. }
  rewrite (steal_run indices w1). simpl.
  rewrite (none_stolen _ _ Hnone). split; [|done]. by apply all_kept.
Qed.

End steal_more.

(** ** What the loop takes from the queue *)

Section taking_facts.
Context `{Env}.

Lemma executed_app (tr1 tr2 : list action) :
  executed (tr1 ++ tr2) = executed tr1 ++ executed tr2.
Proof. apply omap_app. Qed.

Lemma taking_quiet (next : nat) (q0 : list entry) (tr0 : list action)
    (ex : list item) (a : action) (w : world) :
  dequeued [a] = [] → executed [a] = [] →
  taking next q0 tr0 ex w → taking next q0 tr0 ex (record_action a w).
Proof.
  intros Hd He (new & Htr & Hq & Hex & d & Hheap & Hres).
  exists (new ++ [a]). simpl. rewrite Htr, <- app_assoc.
  rewrite dequeued_app, executed_app, Hd, He, !app_nil_r. eauto 10.
Qed.

Lemma fetch_taking (next : nat) (q0 : list entry) (tr0 : list action)
    (ex : list item) (w : world) :
  taking next q0 tr0 ex w →
  wp (DummyNext._fetch next)
    (λ _ w', taking next q0 tr0 ex w' ∧
       ∃ d, heap w' !! next = Some d ∧ is_Some (dn_nextitem_index d) ∧
            ∃ new, trace w' = tr0 ++ new ∧ dequeued new ≠ [])
    (λ ab w', ab ≠ ab_out_of_fuel ∧ taking next q0 tr0 ex w') w.
Proof.
  intros Hinv. pose proof Hinv as (new & Htr & Hq & Hex & d & Hheap & Hres).
  unfold wp. destruct (dn_nextitem_index d) as [v|] eqn:Hv.
  - rewrite (fetch_resolved _ _ _ Hheap) by (by eexists).
    split; [done|]. exists d. rewrite Hv. eauto 10.
  - rewrite (fetch_unresolved _ _ _ Hheap Hv). simpl.
    apply (taking_quiet _ _ _ _ (Send runtest_need_work)) in Hinv; [|done..].
    destruct (channel_send _ _); [done|].
    destruct (torun w) as [|v q] eqn:Hw; [done|].
    set (w2 := record_action (Get v) _).
    assert (trace w2 = tr0 ++ new ++ [Send runtest_need_work; Get v]) as Htr2.
    { subst w2. simpl. rewrite Htr, <- !app_assoc. done. }
    assert (dequeued (new ++ [Send runtest_need_work; Get v]) = dequeued new ++ [v])
      as Hdq2 by (by rewrite dequeued_app).
    assert (executed (new ++ [Send runtest_need_work; Get v]) = ex) as Hex2.
    { by rewrite executed_app, Hex, app_nil_r. }
    assert (q0 = (dequeued new ++ [v]) ++ q) as Hq2.
    { rewrite Hq, <- app_assoc. done. }
    assert (dequeued new ++ [v] ≠ []) as Hne by (by destruct (dequeued new)).
    assert (∀ r, taking next q0 tr0 ex
              (set_heap (<[next := DummyNextObj r (Some v)]> (heap w)) w2) ∧
            ∃ d', heap (set_heap (<[next := DummyNextObj r (Some v)]> (heap w)) w2)
                    !! next = Some d' ∧ is_Some (dn_nextitem_index d') ∧
              ∃ new', trace (set_heap (<[next := DummyNextObj r (Some v)]> (heap w)) w2)
                        = tr0 ++ new' ∧ dequeued new' ≠ []) as Hok.
    { intros r.
      assert (<[next := DummyNextObj r (Some v)]> (heap w) !! next =
              Some (DummyNextObj r (Some v))) as Hnew.
      { apply list_lookup_insert_eq. by eapply lookup_lt_Some. }
      split.
      - exists (new ++ [Send runtest_need_work; Get v]).
        split; [exact Htr2|]. split; [rewrite Hdq2; exact Hq2|].
        split; [exact Hex2|].
        exists (DummyNextObj r (Some v)). split; [exact Hnew|]. by rewrite Hdq2.
      - exists (DummyNextObj r (Some v)). split; [exact Hnew|]. split; [by eexists|].
        exists (new ++ [Send runtest_need_work; Get v]).
        split; [exact Htr2|]. by rewrite Hdq2. }
    destruct v as [z|]; simpl.
    + destruct (py_getitem items z); [apply Hok|]. split; [done|].
      exists (new ++ [Send runtest_need_work; Get (Idx z)]).
      split; [exact Htr2|]. split; [rewrite Hdq2; exact Hq2|].
      split; [exact Hex2|].
      exists d. split; [exact Hheap|]. by rewrite Hdq2.
    + apply Hok.
Qed.

Lemma callback_taking (next : nat) (q0 : list entry) (tr0 : list action)
    (ex : list item) (c : engine_call) (w : world) :
  taking next q0 tr0 ex w →
  wp (engine_callback next c) (λ _, taking next q0 tr0 ex)
    (λ ab w', ab ≠ ab_out_of_fuel ∧ taking next q0 tr0 ex w') w.
Proof.
  intros Hinv. destruct c as [|n l|r|n l]; simpl.
  - unfold DummyNext.listchain. rewrite !wp_bind.
    eapply wp_mono; [| |by apply fetch_taking]; [|done].
    intros u w' [Hinv' _]. cbv beta. rewrite wp_bind, wp_attrs.
    by destruct (heap w' !! next).
  - unfold pytest_runtest_logstart. rewrite wp_sendevent.
    apply (taking_quiet _ _ _ _ (Send (logstart n l))) in Hinv; [|done..].
    by destruct (channel_send _ _).
  - unfold pytest_runtest_logreport. rewrite wp_bind, wp_get_item_index.
    destruct (item_index w) as [i|]; [|done].
    rewrite wp_bind, wp_items_getitem.
    destruct i as [[z|]|]; try done.
    destruct (py_getitem items z) as [it|]; [|done].
    destruct (decide _); [|done]. rewrite wp_sendevent.
    apply (taking_quiet _ _ _ _ (Send (testreport (report_data z r)))) in Hinv; [|done..].
    by destruct (channel_send _ _).
  - unfold pytest_runtest_logfinish. rewrite wp_sendevent.
    apply (taking_quiet _ _ _ _ (Send (logfinish n l))) in Hinv; [|done..].
    by destruct (channel_send _ _).
Qed.

Lemma callbacks_taking (next : nat) (q0 : list entry) (tr0 : list action)
    (ex : list item) (cs : list engine_call) (w : world) :
  taking next q0 tr0 ex w →
  wp (engine_callbacks next cs) (λ _, taking next q0 tr0 ex)
    (λ ab w', ab ≠ ab_out_of_fuel ∧ taking next q0 tr0 ex w') w.
Proof.
  revert w. induction cs as [|c cs IH]; intros w Hinv; [done|].
  simpl. rewrite wp_bind.
  eapply wp_mono; [| |by apply callback_taking]; [|done].
  intros u w' Hinv'. by apply IH.
Qed.

(** A test that returns has taken at least one entry from the queue, and
    a test takes entries from the front of the queue only. *)
Lemma run_one_test_takes (w : world) :
  wp run_one_test
    (λ _ w', ∃ new, trace w' = trace w ++ new ∧
       torun w = dequeued new ++ torun w' ∧
       dequeued new ≠ [] ∧ length (executed new) = 1)
    (λ ab w', ab ≠ ab_out_of_fuel ∧ ∃ new, trace w' = trace w ++ new ∧
       torun w = dequeued new ++ torun w' ∧ length (executed new) ≤ 1) w.
Proof.
  unfold run_one_test.
  rewrite wp_bind, wp_read, wp_bind, wp_modify, wp_bind, wp_items_getitem.
  assert (∃ new, trace w = trace w ++ new ∧ torun w = dequeued new ++ torun w ∧
            length (executed new) ≤ 1) as Hstart.
  { exists []. rewrite app_nil_r. simpl. split; [done|]. split; [done|]. lia. }
  destruct (nextitem_index w) as [[i|]|]; try (split; [done|exact Hstart]).
  destruct (py_getitem items i) as [it|]; [|split; [done|exact Hstart]].
  unfold worker_title.
  rewrite wp_bind, wp_perform, wp_bind, wp_time_now, wp_bind, wp_modify, wp_bind, wp_new.
  rewrite wp_bind. simpl length.
  set (next := length (heap w)). set (w1 := set_heap _ _).
  assert (taking next (torun w) (trace w) [] w1) as Hinv.
  { eexists [_; _]. subst w1. simpl. rewrite <- app_assoc.
    split; [done|]. split; [done|]. split; [done|].
    exists (DummyNextObj None None). split.
    - subst next. by rewrite lookup_app_r, Nat.sub_diag.
    - by intros [? ?]. }
  assert (∀ ex w2, length ex ≤ 1 → taking next (torun w) (trace w) ex w2 →
    ∃ new, trace w2 = trace w ++ new ∧ torun w = dequeued new ++ torun w2 ∧
      length (executed new) ≤ 1) as Habort.
  { intros ex w2 Hex (new & Htr & Hq & <- & _). eauto. }
  match goal with |- wp _ ?Q _ _ => set (Qtail := Q) end.
  assert (∀ w2, taking next (torun w) (trace w) [it] w2 → Qtail tt w2) as Htail.
  { intros w2 Hinv2. subst Qtail. cbv beta.
    rewrite wp_bind, wp_time_now, wp_bind, wp_perform, wp_bind, wp_get_item_index.
    apply (taking_quiet _ _ _ _ (Time (time_time (trace w2)))) in Hinv2; [|done..].
    apply (taking_quiet _ _ _ _ (Title "[pytest-xdist idle]")) in Hinv2; [|done..].
    simpl item_index. destruct (item_index w2) as [ii|].
    2:{ split; [done|]; apply (Habort [it]); [simpl; lia|done]. }
    rewrite wp_bind, wp_sendevent.
    set (ev := runtest_protocol_complete _ _).
    apply (taking_quiet _ _ _ _ (Send ev)) in Hinv2; [|done..].
    destruct (channel_send _ _).
    { split; [done|]; apply (Habort [it]); [simpl; lia|done]. }
    unfold DummyNext._next_index. rewrite !wp_bind.
    eapply wp_mono; [| |by apply fetch_taking].
    - intros u w3 [(new & Htr & Hq & Hex & _) (d & Hd & _ & new' & Htr' & Hne)].
      cbv beta. rewrite wp_bind, wp_attrs, Hd. simpl.
      assert (new' = new) as -> by (by eapply app_inv_head; rewrite <- Htr, <- Htr').
      exists new. rewrite Hex. done.
    - intros ab w3 [Hab Hinv3]. split; [done|]; apply (Habort [it]); [simpl; lia|done]. }
  rewrite wp_try_except. unfold config_hook_pytest_runtest_protocol.
  rewrite wp_bind, wp_read, wp_bind, wp_perform, wp_bind.
  assert (taking next (torun w) (trace w) [it] (record_action (Protocol it) w1)) as Hinv1.
  { destruct Hinv as (new & Htr & Hq & Hex & d & Hd & Hres).
    exists (new ++ [Protocol it]). simpl. simpl in Htr. rewrite Htr, <- app_assoc.
    rewrite dequeued_app, executed_app, Hex, app_nil_r. eauto 10. }
  assert (∀ e w2, taking next (torun w) (trace w) [it] w2 →
    wp (x ← lift_outcome (pickle_dumps_exc_info e); sendevent (exception x)) Qtail
      (λ ab w', ab ≠ ab_out_of_fuel ∧ ∃ new, trace w' = trace w ++ new ∧
         torun w = dequeued new ++ torun w' ∧ length (executed new) ≤ 1) w2) as Hhandler.
  { intros e w2 Hinv2. rewrite wp_bind, wp_lift_outcome.
    destruct (pickle_dumps_exc_info e) as [x|e'].
    2:{ split; [done|]; apply (Habort [it]); [simpl; lia|done]. }
    rewrite wp_sendevent.
    apply (taking_quiet _ _ _ _ (Send (exception x))) in Hinv2; [|done..].
    destruct (channel_send _ _); [|by apply Htail].
    split; [done|]; apply (Habort [it]); [simpl; lia|done]. }
  eapply wp_mono; [| |by apply callbacks_taking].
  - intros u w2 Hinv2. cbv beta. destruct (engine_raises _) as [e|].
    + rewrite wp_raise. simpl. by apply Hhandler.
    + rewrite wp_ret. by apply Htail.
  - intros [e| |] w2 [Hab Hinv2]; simpl.
    + by apply Hhandler.
    + split; [done|]; apply (Habort [it]); [simpl; lia|done].
    + done.
Qed.

Lemma runtestloop_while_takes (fuel : nat) (w : world) :
  ∃ new, trace (runtestloop_while fuel w).2 = trace w ++ new ∧
    torun w = dequeued new ++ torun (runtestloop_while fuel w).2 ∧
    length (executed new) ≤ S (length (dequeued new)) ∧
    ((runtestloop_while fuel w).1 = Ok tt →
     length (executed new) ≤ length (dequeued new)) ∧
    (length (torun w) < fuel → (runtestloop_while fuel w).1 ≠ OutOfFuel).
Proof.
  revert w. induction fuel as [|fuel IH]; intros w.
  - destruct (decide (nextitem_index w = Some SHUTDOWN_MARK)) as [Hn|Hn].
    + rewrite (runtestloop_while_mark _ _ Hn). exists []. rewrite app_nil_r.
      simpl. repeat split; try done; lia.
    + simpl. rewrite run_bind. simpl. rewrite decide_False by done.
      exists []. rewrite app_nil_r. simpl. repeat split; try done; lia.
  - destruct (decide (nextitem_index w = Some SHUTDOWN_MARK)) as [Hn|Hn].
    + rewrite (runtestloop_while_mark _ _ Hn). exists []. rewrite app_nil_r.
      simpl. repeat split; try done; lia.
    + simpl. rewrite run_bind. simpl. rewrite decide_False by done.
      rewrite run_bind.
      pose proof (wp_run _ _ _ _ (run_one_test_takes w)) as Hrun.
      destruct (run_one_test w) as [[[]|e| |] w1]; simpl in Hrun.
      * destruct Hrun as (new1 & Htr1 & Hq1 & Hne & Hex1).
        destruct (IH w1) as (new2 & Htr2 & Hq2 & Hbound & Hok & Hfuel).
        exists (new1 ++ new2). rewrite Htr2, Htr1, <- app_assoc.
        rewrite dequeued_app, executed_app, !length_app, Hex1.
        assert (0 < length (dequeued new1)) by (destruct (dequeued new1); simpl; [done|lia]).
        split; [done|]. split; [by rewrite <- app_assoc, <- Hq2|].
        split; [lia|]. split; [intros Hr; specialize (Hok Hr); lia|].
        intros Hlen. apply Hfuel. rewrite Hq1, length_app in Hlen. lia.
      * destruct Hrun as (_ & new & Htr & Hq & Hex). exists new. simpl.
        repeat split; try done; lia.
      * destruct Hrun as (_ & new & Htr & Hq & Hex). exists new. simpl.
        repeat split; try done; lia.
      * by destruct Hrun.
Qed.

Lemma pytest_runtestloop_takes (fuel : nat) (w : world) :
  ∃ new, trace (pytest_runtestloop fuel w).2 = trace w ++ new ∧
    torun w = dequeued new ++ torun (pytest_runtestloop fuel w).2 ∧
    length (executed new) ≤ length (dequeued new) ∧
    (length (torun w) ≤ fuel → (pytest_runtestloop fuel w).1 ≠ OutOfFuel).
Proof.
  unfold pytest_runtestloop. rewrite run_bind. unfold torun_get.
  destruct (torun w) as [|v q] eqn:Hq.
  { exists []. rewrite app_nil_r. simpl. by rewrite Hq. }
  rewrite run_bind. simpl. rewrite run_bind.
  set (w0 := set_nextitem_index _ _).
  destruct (runtestloop_while_takes fuel w0) as (new & Htr & Hq0 & Hbound & Hok & Hfuel).
  exists (Get v :: new).
  destruct (runtestloop_while fuel w0) as [[[]|e| |] w1]; simpl in *;
    (split; [by rewrite Htr, <- app_assoc|]);
    (split; [by rewrite <- Hq0|]);
    (split; [lia|]); try done.
  intros Hlen ?. apply Hfuel; [lia|done].
Qed.

(** X6.  The main loop takes its entries from the front of the queue, in
    their order and each once: whatever the engine, the channel and
    [pickle] do and however the loop ends, the queue at the start is what
    the loop took followed by the queue at the end.  And the loop calls the
    engine at most once for an entry it took. *)
Theorem main_loop_takes_the_front (fuel : nat) (w : world) :
  ∃ new, trace (pytest_runtestloop fuel w).2 = trace w ++ new ∧
    torun w = dequeued new ++ torun (pytest_runtestloop fuel w).2 ∧
    length (executed new) ≤ length (dequeued new) ∧
    length (executed new) ≤ length (torun w).
Proof.
  destruct (pytest_runtestloop_takes fuel w) as (new & Htr & Hq & Hex & _).
  exists new. repeat split; try done.
  rewrite Hq, length_app. lia.
Qed.

Lemma pytest_runtestloop_true (fuel : nat) (w : world) (b : bool) :
  (pytest_runtestloop fuel w).1 = Ok b → b = true.
Proof.
  unfold pytest_runtestloop. rewrite run_bind.
  destruct (torun_get w) as [[v| e | |] w0]; try done.
  rewrite run_bind. simpl. rewrite run_bind.
  destruct (runtestloop_while fuel _) as [[[]|e| |] w1]; simpl; congruence.
Qed.

(** X7.  A test that returns has taken at least one entry from the queue,
    so the loop runs no more tests than the queue has entries: with a
    bound on the number of tests of at least the length of the queue, the
    loop ends by returning [True], by an exception or by waiting on the
    empty queue, and never because the bound is used up. *)
Theorem main_loop_is_bounded_by_the_queue (fuel : nat) (w : world) :
  length (torun w) ≤ fuel →
  (pytest_runtestloop fuel w).1 = Ok true ∨
  (∃ e, (pytest_runtestloop fuel w).1 = Raise e) ∨
  (pytest_runtestloop fuel w).1 = Blocked.
Proof.
  intros Hfuel.
  destruct (pytest_runtestloop_takes fuel w) as (_ & _ & _ & _ & Hnot).
  specialize (Hnot Hfuel).
  pose proof (pytest_runtestloop_true fuel w) as Htrue.
  destruct (pytest_runtestloop fuel w) as [[b|e| |] w']; simpl in *.
  - left. by rewrite (Htrue b).
  - right. left. by exists e.
  - by right; right.
  - done.
Qed.

End taking_facts.

(** ** The loop after commands *)

Section composed_facts.
Context `{Env}.

Lemma executed_milestones (tr : list action) :
  executed (milestones tr) = executed tr.
Proof.
  induction tr as [|a tr IH]; [done|].
  unfold milestones in *. destruct a as [[]| | | | |]; simpl;
    rewrite ?filter_cons_True, ?filter_cons_False by done; simpl; by rewrite ?IH.
Qed.

Lemma completions_milestones (tr : list action) :
  completions (milestones tr) = completions tr.
Proof.
  induction tr as [|a tr IH]; [done|].
  unfold milestones in *. destruct a as [[]| | | | |]; simpl;
    rewrite ?filter_cons_True, ?filter_cons_False by done; simpl; by rewrite ?IH.
Qed.

Lemma executed_run_milestones (runs : list (Z * item * Z)) :
  executed (run_milestones runs) = runs.*1.*2.
Proof.
  induction runs as [|[[i it] d] runs IH]; [done|].
  rewrite !fmap_cons. simpl. by f_equal.
Qed.

Lemma completions_run_milestones (runs : list (Z * item * Z)) :
  (completions (run_milestones runs)).*1 = VInt <$> runs.*1.*1.
Proof.
  induction runs as [|[[i it] d] runs IH]; [done|].
  rewrite !fmap_cons. simpl. by f_equal.
Qed.

Lemma before_after_mark (q : list entry) :
  SHUTDOWN_MARK ∈ q → q = (Idx <$> before_mark q) ++ SHUTDOWN_MARK :: after_mark q.
Proof.
  induction q as [|[i|] q IH]; intros Hin.
  - by apply elem_of_nil in Hin.
  - apply elem_of_cons in Hin as [?|Hin]; [done|]. simpl. f_equal. by apply IH.
  - done.
Qed.

(** A returning loop in a healthy environment, in terms of the trace. *)
Lemma returning_loop (fuel : nat) (w : world) :
  channel_delivers → exc_info_pickles →
  Forall valid_entry (torun w) → length (torun w) ≤ fuel →
  SHUTDOWN_MARK ∈ torun w →
  (pytest_runtestloop fuel w).1 = Ok true ∧
  torun (pytest_runtestloop fuel w).2 = after_mark (torun w) ∧
  ∃ new, trace (pytest_runtestloop fuel w).2 = trace w ++ new ∧
    dequeued new = (Idx <$> before_mark (torun w)) ++ [SHUTDOWN_MARK] ∧
    Forall2 (λ i it, py_getitem items i = Some it) (before_mark (torun w)) (executed new) ∧
    (completions new).*1 = VInt <$> before_mark (torun w).
Proof.
  intros Hsend Hpickle Hvalid Hfuel Hin.
  destruct (pytest_runtestloop_healthy fuel w Hsend Hpickle Hvalid Hfuel)
    as (new & runs & pending & Htr & Hms & Hall & Hloop).
  rewrite decide_True in Hloop by done. destruct Hloop as (Hr & Hdq & Hruns & ->).
  rewrite app_nil_r in Hms.
  destruct (pytest_runtestloop_takes fuel w) as (new' & Htr' & Hq & _).
  assert (new' = new) as -> by (by eapply app_inv_head; rewrite <- Htr, <- Htr').
  split; [done|]. split.
  { rewrite (before_after_mark _ Hin) in Hq at 1. rewrite Hdq in Hq.
    rewrite <- app_assoc in Hq. apply app_inv_head in Hq. simpl in Hq. congruence. }
  exists new. split; [done|]. split; [done|]. split.
  - rewrite <- executed_milestones, Hms, executed_run_milestones, <- Hruns.
    clear -Hall. induction Hall as [|[[i it] d] runs [Hit _] _ IH]; [constructor|].
    simpl. by constructor.
  - by rewrite <- completions_milestones, Hms, completions_run_milestones, Hruns.
Qed.

Lemma before_mark_app (l : list Z) (q : list entry) :
  before_mark ((Idx <$> l) ++ SHUTDOWN_MARK :: q) = l ∧
  after_mark ((Idx <$> l) ++ SHUTDOWN_MARK :: q) = q.
Proof.
  induction l as [|i l [IH1 IH2]]; [done|]. split.
  - change (i :: before_mark ((Idx <$> l) ++ SHUTDOWN_MARK :: q) = i :: l).
    by rewrite IH1.
  - exact IH2.
Qed.

Lemma items_in_order (l : list item) :
  Forall2 (λ i it, py_getitem items i = Some it)
    (Z.of_nat <$> seq 0 (length items)) l →
  l = items.
Proof.
  intros Hall. apply list_eq. intros k.
  pose proof (Forall2_length _ _ _ Hall) as Hlen.
  rewrite length_fmap, length_seq in Hlen.
  destruct (items !! k) as [it|] eqn:Hk.
  - pose proof (lookup_lt_Some _ _ _ Hk) as Hlt.
    destruct (lookup_lt_is_Some_2 l k ltac:(lia)) as [it' Hk'].
    rewrite Hk'. f_equal.
    assert ((Z.of_nat <$> seq 0 (length items)) !! k = Some (Z.of_nat k)) as Hi.
    { by rewrite list_lookup_fmap, lookup_seq_lt. }
    pose proof (Forall2_lookup_lr _ _ _ _ _ _ Hall Hi Hk') as Hget.
    unfold py_getitem in Hget. rewrite decide_True in Hget by lia.
    rewrite Nat2Z.id in Hget. congruence.
  - apply lookup_ge_None in Hk. apply lookup_ge_None. lia.
Qed.

(** X8.  On an empty queue, [runtests_all] followed by [shutdown] makes
    the loop, in an environment where the channel takes every message and
    [pickle] takes what [sys.exc_info()] returns, give every item to the
    engine once, in the order of the items, report each with its index,
    take the mark and return with an empty queue. *)
Theorem runtests_all_then_shutdown (fuel : nat) (w : world) :
  channel_delivers → exc_info_pickles →
  torun w = [] → length items < fuel →
  let w1 := (handle_command RunTestsAll w).2 in
  let w2 := (handle_command Shutdown w1).2 in
  (pytest_runtestloop fuel w2).1 = Ok true ∧
  torun (pytest_runtestloop fuel w2).2 = [] ∧
  ∃ new, trace (pytest_runtestloop fuel w2).2 = trace w ++ new ∧
    executed new = items ∧
    (completions new).*1 = VInt ∘ Z.of_nat <$> seq 0 (length items).
Proof.
  intros Hsend Hpickle Hempty Hfuel w1 w2.
  set (all := Z.of_nat <$> seq 0 (length items)).
  assert (torun w2 = (Idx <$> all) ++ [SHUTDOWN_MARK] ∧ trace w2 = trace w) as [Hq Htr].
  { subst w2 w1. simpl. rewrite put_all_run. simpl. by rewrite Hempty. }
  destruct (before_mark_app all []) as [Hbefore Hafter].
  assert (Forall valid_entry (torun w2)) as Hvalid.
  { rewrite Hq. apply Forall_app. split; [|by repeat constructor].
    subst all. apply Forall_fmap, Forall_fmap, Forall_forall. intros k Hk.
    apply elem_of_seq in Hk. simpl. unfold py_getitem.
    rewrite decide_True by lia. rewrite Nat2Z.id. apply lookup_lt_is_Some. lia. }
  assert (length (torun w2) ≤ fuel) as Hlen.
  { rewrite Hq, length_app, length_fmap. subst all.
    rewrite length_fmap, length_seq. simpl. lia. }
  assert (SHUTDOWN_MARK ∈ torun w2) as Hin.
  { rewrite Hq. apply elem_of_app. right. by left. }
  destruct (returning_loop fuel w2 Hsend Hpickle Hvalid Hlen Hin)
    as (Hr & Hrest & new & Htr2 & Hdq & Hex & Hcompl).
  rewrite Hq in Hrest, Hex, Hcompl. rewrite Hbefore in Hex, Hcompl. rewrite Hafter in Hrest.
  split; [done|]. split; [done|]. exists new. rewrite Htr2, Htr.
  split; [done|]. split; [by apply items_in_order|].
  rewrite Hcompl. subst all. by rewrite <- list_fmap_compose.
Qed.

(** X9.  What is queued behind the mark is never run: in such an
    environment the loop gives to the engine the items at the indices in
    front of the first mark, in their order, takes that mark and returns;
    the entries behind it are still in the queue. *)
Theorem entries_behind_the_mark_stay (fuel : nat) (w : world) :
  channel_delivers → exc_info_pickles →
  Forall valid_entry (torun w) → length (torun w) ≤ fuel →
  SHUTDOWN_MARK ∈ torun w →
  (pytest_runtestloop fuel w).1 = Ok true ∧
  torun (pytest_runtestloop fuel w).2 = after_mark (torun w) ∧
  ∃ new, trace (pytest_runtestloop fuel w).2 = trace w ++ new ∧
    Forall2 (λ i it, py_getitem items i = Some it)
      (before_mark (torun w)) (executed new).
Proof.
  intros Hsend Hpickle Hvalid Hfuel Hin.
  destruct (returning_loop fuel w Hsend Hpickle Hvalid Hfuel Hin)
    as (Hr & Hrest & new & Htr & _ & Hex & _).
  eauto 10.
Qed.

Lemma before_mark_kept (S : gset Z) (q : list entry) :
  before_mark (filter (λ v, ¬ requested S v) q) = filter (.∉ S) (before_mark q).
Proof.
  induction q as [|[i|] q IH]; [done|..].
  - destruct (decide (i ∈ S)) as [Hi|Hi].
    + rewrite filter_cons_False by (simpl; tauto). simpl.
      rewrite filter_cons_False by tauto. done.
    + rewrite filter_cons_True by done. simpl.
      rewrite filter_cons_True by done. by rewrite IH.
  - rewrite filter_cons_True by (simpl; tauto). done.
Qed.

(** X10.  An index that was stolen is not run: in such an environment the
    loop that runs on the queue after a steal reports as complete the
    indices in front of the mark that the steal did not ask for, in their
    order, and no index of the steal. *)
Theorem stolen_indices_are_not_run (indices : list Z) (fuel : nat) (w : world) :
  channel_delivers → exc_info_pickles →
  Forall valid_entry (torun w) → length (torun w) ≤ fuel →
  SHUTDOWN_MARK ∈ torun w →
  let w' := (steal indices w).2 in
  (pytest_runtestloop fuel w').1 = Ok true ∧
  ∃ new, trace (pytest_runtestloop fuel w').2 = trace w' ++ new ∧
    (completions new).*1 = VInt <$> filter (.∉ indices) (before_mark (torun w)) ∧
    ∀ i, i ∈ indices → VInt i ∉ (completions new).*1.
Proof.
  intros Hsend Hpickle Hvalid Hfuel Hin w'.
  set (S := list_to_set indices : gset Z).
  assert (torun w' = filter (λ v, ¬ requested S v) (torun w)) as Hq.
  { subst w'. by rewrite steal_run. }
  assert (Forall valid_entry (torun w')) as Hvalid'.
  { rewrite Hq. rewrite Forall_forall in Hvalid |- *.
    intros v [_ Hv]%list_elem_of_filter. by apply Hvalid. }
  assert (length (torun w') ≤ fuel) as Hfuel'.
  { rewrite Hq. etrans; [apply length_filter|done]. }
  assert (SHUTDOWN_MARK ∈ torun w') as Hin'.
  { rewrite Hq. apply list_elem_of_filter. split; [simpl; tauto|done]. }
  destruct (returning_loop fuel w' Hsend Hpickle Hvalid' Hfuel' Hin')
    as (Hr & _ & new & Htr & _ & _ & Hcompl).
  split; [done|]. exists new. split; [done|].
  rewrite Hq, before_mark_kept in Hcompl.
  assert (filter (.∉ S) (before_mark (torun w)) =
          filter (.∉ indices) (before_mark (torun w))) as Hfilter.
  { apply list_filter_iff. intros i. subst S. by rewrite elem_of_list_to_set. }
  rewrite Hfilter in Hcompl. split; [done|].
  intros i Hi. rewrite Hcompl.
  intros (j & [= <-] & [Hj _]%list_elem_of_filter)%list_elem_of_fmap. done.
Qed.

End composed_facts.

(** ** Indices out of range *)

Section bad_index_facts.
Context `{Env}.

Lemma py_getitem_is_Some {A : Type} (l : list A) (i : Z) :
  is_Some (py_getitem l i) ↔ (- Z.of_nat (length l) ≤ i < Z.of_nat (length l))%Z.
Proof.
  unfold py_getitem. destruct (decide (0 ≤ i)%Z).
  - rewrite lookup_lt_is_Some. lia.
  - destruct (decide (- Z.of_nat (length l) ≤ i)%Z).
    + rewrite lookup_lt_is_Some. lia.
    + split; [by intros [??]|lia].
Qed.

Lemma py_getitem_mod {A : Type} (l : list A) (i : Z) :
  (- Z.of_nat (length l) ≤ i < Z.of_nat (length l))%Z →
  py_getitem l i = l !! Z.to_nat (i mod Z.of_nat (length l)).
Proof.
  intros Hi. unfold py_getitem. destruct (decide (0 ≤ i)%Z).
  - by rewrite Z.mod_small by lia.
  - rewrite decide_True by lia. do 2 f_equal.
    rewrite <- (Z.mod_small (_ + i) (Z.of_nat (length l))) by lia.
    rewrite <- (Z_mod_plus_full i 1 (Z.of_nat (length l))). f_equal. lia.
Qed.

(** X11.  [get_more_work] with an index in front of the queue takes it
    from the queue in every case.  An index [i] with [-N <= i < N], for [N]
    items, gives the item at position [i mod N] and the index as it was
    queued; any other index raises [IndexError], after the entry is
    taken. *)
Theorem get_more_work_bounds (i : Z) (q : list entry) (w : world) :
  torun w = Idx i :: q →
  let n := Z.of_nat (length items) in
  (get_more_work w).2 = record_action (Get (Idx i)) (set_torun q w) ∧
  ((- n ≤ i < n)%Z →
     ∃ it, items !! Z.to_nat (i mod n) = Some it ∧
           (get_more_work w).1 = Ok (Some it, Idx i)) ∧
  (¬ (- n ≤ i < n)%Z → (get_more_work w).1 = Raise IndexError).
Proof.
  intros Hq n. subst n. unfold get_more_work. rewrite run_bind. unfold torun_get. rewrite Hq.
  rewrite run_bind. unfold items_getitem.
  pose proof (py_getitem_is_Some items i) as Hsome.
  destruct (py_getitem items i) as [it|] eqn:Hi; simpl.
  - split; [done|]. split.
    + intros Hin. exists it. split; [|done]. by rewrite <- py_getitem_mod.
    + intros Hout. destruct Hout. apply Hsome. by eexists.
  - split; [done|]. split; [|done].
    intros Hin. apply Hsome in Hin as [? [=]].
Qed.

(** X12.  A loop that finds an index out of range in front of the queue
    raises [IndexError] before anything is sent: the entry is taken, it
    becomes [item_index], and the rest of the queue is as it was. *)
Theorem main_loop_stops_at_a_bad_first_index (fuel : nat) (z : Z)
    (rest : list entry) (w : world) :
  torun w = Idx z :: rest → py_getitem items z = None →
  pytest_runtestloop (S fuel) w =
  (Raise IndexError,
   World rest (Some (Idx z)) (Some (Some (Idx z))) (heap w) (trace w ++ [Get (Idx z)])).
Proof.
  intros Hq Hz. unfold pytest_runtestloop. rewrite run_bind. unfold torun_get.
  rewrite Hq. rewrite run_bind. unfold modify at 1. rewrite run_bind.
  change (runtestloop_while (S fuel)) with
    (n ← read nextitem_index;
     if decide (n = Some SHUTDOWN_MARK) then mret tt
     else run_one_test;; runtestloop_while fuel).
  rewrite run_bind. unfold read at 1. simpl nextitem_index.
  rewrite decide_False by done. rewrite run_bind.
  unfold run_one_test. rewrite run_bind. unfold read at 1. simpl nextitem_index.
  rewrite run_bind. unfold modify at 1. rewrite run_bind.
  unfold items_getitem. rewrite Hz. reflexivity.
Qed.

(** X13.  An index out of range is lost, and the next call asks again.  A
    [DummyNext] object that holds no index yet, on a queue with such an
    index in front of an entry [v] that [items] resolves, while the channel
    takes every message: the first call raises [IndexError], after the
    event and with the bad index taken; the next call sends
    [runtest_need_work] a second time, takes [v] and answers from it. *)
Theorem dummy_next_asks_again_after_a_bad_index (self : nat) (d : dummy_next)
    (z : Z) (v : entry) (rest : list entry) (q1 q2 : dummy_query) (w : world) :
  heap w !! self = Some d → dn_nextitem_index d = None →
  channel_delivers →
  torun w = Idx z :: v :: rest →
  py_getitem items z = None → valid_entry v →
  let w1 := record_action (Get (Idx z))
              (set_torun (v :: rest) (record_action (Send runtest_need_work) w)) in
  ask self q1 w = (Raise IndexError, w1) ∧
  ask self q2 w1 =
  (Ok (cached_answer v q2),
   World rest (nextitem_index w) (item_index w)
     (<[self := DummyNextObj (resolve v) (Some v)]> (heap w))
     (trace w ++ [Send runtest_need_work; Get (Idx z); Send runtest_need_work; Get v])).
Proof.
  intros Hd Hnone Hsend Hq Hz Hv w1.
  assert (DummyNext._fetch self w = (Raise IndexError, w1)) as Hfetch1.
  { rewrite (fetch_unresolved _ _ _ Hd Hnone), Hsend. simpl. rewrite Hq. simpl.
    by rewrite Hz. }
  set (w2 := World rest _ _ _ _).
  assert (DummyNext._fetch self w1 = (Ok tt, w2)) as Hfetch2.
  { assert (heap w1 !! self = Some d) as Hd1 by done.
    rewrite (fetch_unresolved _ _ _ Hd1 Hnone), Hsend. simpl.
    subst w2. unfold record_action, set_torun, set_heap. simpl.
    rewrite <- !app_assoc. simpl.
    destruct v as [i|]; [|done]. simpl in Hv. destruct Hv as [it Hit].
    simpl. by rewrite Hit. }
  assert (heap w2 !! self = Some (DummyNextObj (resolve v) (Some v))) as Hd2.
  { simpl. apply list_lookup_insert_eq. by eapply lookup_lt_Some. }
  split.
  - destruct q1; unfold ask, DummyNext.listchain, DummyNext._next_index;
      by rewrite run_bind, run_bind, Hfetch1.
  - destruct q2; unfold ask, DummyNext.listchain, DummyNext._next_index;
      rewrite run_bind, run_bind, Hfetch2, run_bind; unfold DummyNext.attrs;
      rewrite Hd2; reflexivity.
Qed.

End bad_index_facts.

(** ** More on the serialization of warnings *)

Section serialize_more.
Variable dumps : pyval → outcome (list Byte.byte).
Variable repr : pyval → string.
Variable details : list string.

Lemma serialize_details_dom wm (names : list string) (r0 r : gmap string pyval) :
  serialize_details dumps repr wm names r0 = Returns r →
  dom r = dom r0 ∪ list_to_set (filter (λ n, n ∉ ["message"; "category"]) names).
Proof.
  revert r0. induction names as [|n names IH]; intros r0 E; simpl in E.
  - injection E as <-. rewrite filter_nil. simpl. by rewrite (right_id_L ∅ (∪)).
  - destruct (decide (n ∈ ["message"; "category"])) as [Hn|Hn].
    + rewrite filter_cons_False by tauto. by apply IH.
    + rewrite filter_cons_True by done.
      destruct (try_dumps dumps (getattr wm n) _ _) as [v|e]; [|done].
      simpl in E. rewrite (IH _ E), dom_insert_L, list_to_set_cons.
      by rewrite (comm_L (∪) {[n]} (dom r0)), <- (assoc_L (∪)).
Qed.

Lemma serialize_details_preserves (P : string → pyval → Prop) wm
    (names : list string) (r0 r : gmap string pyval) :
  (∀ k v, sendable dumps v → P k v) →
  (∀ k v, r0 !! k = Some v → P k v) →
  serialize_details dumps repr wm names r0 = Returns r →
  ∀ k v, r !! k = Some v → P k v.
Proof.
  intros Hsendable. revert r0. induction names as [|n names IH]; intros r0 H0 E; simpl in E.
  - by injection E as <-.
  - destruct (decide (n ∈ ["message"; "category"])) as [Hn|Hn]; [by eapply IH|].
    destruct (try_dumps dumps (getattr wm n) _ _) as [x|e] eqn:Ex; [|done].
    simpl in E. eapply IH; [|exact E].
    intros k v [[<- <-]|[_ Hk]]%lookup_insert_Some; [|by apply H0].
    apply Hsendable. apply try_dumps_cases in Ex. unfold sendable.
    destruct (dumps (getattr wm n)) as [y|e'] eqn:Ed.
    + subst x. eauto.
    + destruct Ex as [_ ->]. eauto.
Qed.

(** X14.  While [dumps] raises nothing but [DumpError], the serialization
    of a warning returns, and the keys of the mapping are the six fixed
    ones and the attributes of [_WARNING_DETAILS] other than [message] and
    [category], whatever the warning holds. *)
Theorem serialized_keys (wm : warning_message) :
  (∀ v e, dumps v = Raises e → e = DumpError) →
  ∃ result, serialize_warning_message dumps repr details wm = Returns result ∧
            dom result = result_keys details.
Proof.
  intros Honly.
  assert (∀ (A : Type) v (a b : A), ∃ r, try_dumps dumps v a b = Returns r) as Htry.
  { intros A v a b. unfold try_dumps. destruct (dumps v) as [x|e] eqn:Ed; [by eexists|].
    rewrite (Honly _ _ Ed). by eexists. }
  unfold serialize_warning_message, result_keys.
  destruct (message wm) as [m|v]; simpl.
  - destruct (Htry pyval (w_args m) VNone (w_args m)) as [a ->]. simpl.
    destruct (category wm) as [[??]|];
      (edestruct (serialize_details_returns dumps repr wm details) as [r E];
       [by eauto|]; rewrite E; eexists; split; [done|];
       rewrite (serialize_details_dom _ _ _ _ E), !dom_insert_L, dom_empty_L;
       f_equal; apply (bool_decide_unpack _); by vm_compute).
  - destruct (category wm) as [[??]|];
      (edestruct (serialize_details_returns dumps repr wm details) as [r E];
       [by eauto|]; rewrite E; eexists; split; [done|];
       rewrite (serialize_details_dom _ _ _ _ E), !dom_insert_L, dom_empty_L;
       f_equal; apply (bool_decide_unpack _); by vm_compute).
Qed.

(** X15.  For attribute names that do not take these keys, a serialized
    warning names the class of the message, [None] twice when the message
    is no [Warning] instance, and the class given as the category, [None]
    twice when there is none. *)
Theorem serialized_classes (wm : warning_message) (result : gmap string pyval) :
  Forall (.∉ details) ["message_module"; "message_class_name";
                       "category_module"; "category_class_name"] →
  serialize_warning_message dumps repr details wm = Returns result →
  result !! "message_module" =
    Some (match message wm with IsWarning m => VStr (w_module m) | NotWarning _ => VNone end) ∧
  result !! "message_class_name" =
    Some (match message wm with IsWarning m => VStr (w_class_name m) | NotWarning _ => VNone end) ∧
  result !! "category_module" =
    Some (match category wm with Some (module, _) => VStr module | None => VNone end) ∧
  result !! "category_class_name" =
    Some (match category wm with Some (_, name) => VStr name | None => VNone end).
Proof.
  intros Hall. rewrite !Forall_cons in Hall. destruct Hall as (H1 & H2 & H3 & H4 & _).
  unfold serialize_warning_message.
  destruct (message wm) as [m|v]; simpl.
  - destruct (try_dumps dumps (w_args m) VNone (w_args m)) as [a|e]; [|done]. simpl.
    destruct (category wm) as [[??]|]; intros E;
      (repeat split;
       match goal with
       | |- result !! ?k = _ =>
           rewrite (proj2 (serialize_details_lookup _ _ _ _ _ _ E k)) by done; done
       end).
  - destruct (category wm) as [[??]|]; intros E;
      (repeat split;
       match goal with
       | |- result !! ?k = _ =>
           rewrite (proj2 (serialize_details_lookup _ _ _ _ _ _ E k)) by done; done
       end).
Qed.

(** X16.  Every value of a serialized warning is one that [dumps] takes, a
    string or [None], but for one: a message that is no [Warning] instance
    goes under [message_str] unchecked. *)
Theorem serialized_values_are_sendable (wm : warning_message)
    (result : gmap string pyval) (k : string) (v : pyval) :
  serialize_warning_message dumps repr details wm = Returns result →
  result !! k = Some v →
  sendable dumps v ∨ (k = "message_str" ∧ message wm = NotWarning v).
Proof.
  unfold serialize_warning_message.
  set (P := λ (k : string) (v : pyval),
    sendable dumps v ∨ (k = "message_str" ∧ message wm = NotWarning v)).
  assert (∀ k v, sendable dumps v → P k v) as Hsendable by (intros; by left).
  destruct (message wm) as [m|x] eqn:Hm; simpl.
  - destruct (try_dumps dumps (w_args m) VNone (w_args m)) as [a|e] eqn:Ea; [|done]. simpl.
    assert (sendable dumps a) as Ha.
    { apply try_dumps_cases in Ea. unfold sendable.
      destruct (dumps (w_args m)) as [y|e'] eqn:Ed; [subst; eauto|].
      destruct Ea as [_ ->]. eauto. }
    destruct (category wm) as [[??]|]; intros E Hk;
      (eapply (serialize_details_preserves P); [exact Hsendable| |exact E|exact Hk];
       intros k' v' Hk';
       repeat (apply lookup_insert_Some in Hk'; destruct Hk' as [[<- <-]|[_ Hk']];
               [left; unfold sendable; eauto|]);
       by apply lookup_empty_Some in Hk').
  - destruct (category wm) as [[??]|]; intros E Hk;
      (eapply (serialize_details_preserves P); [exact Hsendable| |exact E|exact Hk];
       intros k' v' Hk';
       repeat (apply lookup_insert_Some in Hk'; destruct Hk' as [[<- <-]|[_ Hk']];
               [first [by right | left; unfold sendable; eauto]|]);
       by apply lookup_empty_Some in Hk').
Qed.

End serialize_more.

(** ** The collection hook and the configuration *)

Section collection_facts.

Lemma string_app_assoc (s1 s2 s3 : string) :
  (s1 +:+ s2) +:+ s3 = s1 +:+ (s2 +:+ s3).
Proof.
  induction s1 as [|a s1 IH]; [done|].
  change (String a ((s1 +:+ s2) +:+ s3) = String a (s1 +:+ (s2 +:+ s3))).
  by rewrite IH.
Qed.

Lemma string_app_empty_r (s : string) : s +:+ "" = s.
Proof.
  induction s as [|a s IH]; [done|].
  change (String a (s +:+ "") = String a s). by rewrite IH.
Qed.

(** X17.  The collection hook keeps the items, their order, their marks
    and their chains; to the nodeid of an item it adds nothing, except
    under [loadgroup] for an item with the [xdist_group] mark, where it
    adds an [@] and the name of the group. *)
Theorem modifyitems_appends_the_group (loadgroup : bool) (cs : list collected) :
  length (pytest_collection_modifyitems loadgroup cs) = length cs ∧
  ∀ k c, cs !! k = Some c →
    ∃ c', pytest_collection_modifyitems loadgroup cs !! k = Some c' ∧
      xdist_group c' = xdist_group c ∧
      item_listchain (col_item c') = item_listchain (col_item c) ∧
      nodeid (col_item c') =
        nodeid (col_item c) +:+
        match xdist_group c with
        | Some m => if loadgroup then "@" +:+ group_name m else ""
        | None => ""
        end.
Proof.
  unfold pytest_collection_modifyitems. split.
  - destruct loadgroup; [apply length_fmap|done].
  - intros k c Hk. destruct loadgroup.
    + exists (add_group_suffix c). rewrite list_lookup_fmap, Hk. split; [done|].
      unfold add_group_suffix. destruct (xdist_group c) as [m|] eqn:Hm; simpl.
      * done.
      * by rewrite string_app_empty_r.
    + exists c. split; [done|]. destruct (xdist_group c); by rewrite string_app_empty_r.
Qed.

(** X18.  The hook is not idempotent: a second pass under [loadgroup]
    adds the group to a marked item once more. *)
Theorem modifyitems_twice_appends_twice (cs : list collected) (k : nat)
    (c : collected) (m : mark) :
  cs !! k = Some c → xdist_group c = Some m →
  ∃ c', pytest_collection_modifyitems true (pytest_collection_modifyitems true cs) !! k
          = Some c' ∧
        nodeid (col_item c') =
          nodeid (col_item c) +:+ "@" +:+ group_name m +:+ "@" +:+ group_name m.
Proof.
  intros Hk Hm. unfold pytest_collection_modifyitems.
  exists (add_group_suffix (add_group_suffix c)).
  rewrite !list_lookup_fmap, Hk. split; [done|].
  unfold add_group_suffix. rewrite Hm. simpl. rewrite ?Hm. simpl.
  by rewrite !string_app_assoc.
Qed.

(** X19.  [setup_config] decides whether the collection hook adds groups:
    it does for a configuration that came with [dist] at [loadgroup], it
    does not for any other, and it does not after a second [setup_config],
    which finds the [dist] the first one wrote. *)
Theorem setup_config_decides_the_groups (option : options) (basetemp basetemp' : pyval)
    (cs : list collected) :
  let config := setup_config option basetemp in
  pytest_collection_modifyitems (opt_loadgroup config) cs =
    (if decide (opt_dist option = "loadgroup") then add_group_suffix <$> cs else cs) ∧
  pytest_collection_modifyitems (opt_loadgroup (setup_config config basetemp')) cs = cs.
Proof.
  simpl. split; [|done]. unfold pytest_collection_modifyitems.
  destruct (decide (opt_dist option = "loadgroup")) as [Hd|Hd].
  - by rewrite bool_decide_eq_true_2.
  - by rewrite bool_decide_eq_false_2.
Qed.

End collection_facts.

(** ** The diagnostic log *)

Section producer_facts.

(** X20.  A producer reached through attributes is on or off as the one at
    the start: when that one is off nothing is printed, and when it is on
    the line starts with the last name in brackets, followed by the
    arguments as they are. *)
Theorem producer_descendants (p : Producer.producer) (path : list string)
    (a : list pyval) :
  let p' := foldl Producer.__getattr__ p path in
  Producer.enabled p' = Producer.enabled p ∧
  Producer.__call__ p' a =
    if Producer.enabled p
    then Some (VStr ("[" +:+ default (Producer.name p) (last path) +:+ "]") :: a)
    else None.
Proof.
  simpl. revert p. induction path as [|n path IH] using rev_ind; intros p.
  - split; [done|]. unfold Producer.__call__. simpl. done.
  - rewrite foldl_app. simpl. rewrite last_snoc. simpl.
    destruct (IH p) as [He _]. split; [done|].
    unfold Producer.__call__. simpl. by rewrite He.
Qed.

End producer_facts.

(** ** More on the log relay *)

Section relay_more.
Context `{Env}.

(** X21.  [emit] leaves the worker as it is: the queue, the indices and
    the [DummyNext] objects are untouched, nothing is taken from the
    queue, and the trace grows by at most one event, a
    [runtest_logmessage], and at most one call of [handleError]. *)
Theorem emit_leaves_the_worker_alone (record : log_record) (w : world) :
  let w' := (RemoteMessageHandler.emit record w).2 in
  torun w' = torun w ∧ nextitem_index w' = nextitem_index w ∧
  item_index w' = item_index w ∧ heap w' = heap w ∧
  ∃ sent handled, trace w' = trace w ++ sent ++ handled ∧
    (sent = [] ∨ ∃ x, sent = [Send (runtest_logmessage x)]) ∧
    (handled = [] ∨ ∃ r, handled = [HandleError r]).
Proof.
  simpl. unfold RemoteMessageHandler.emit, try_except, RemoteMessageHandler.handleError.
  destruct (format record) as [msg|e1]; simpl.
  - rewrite run_bind. destruct (pickle_dumps_record _) as [x|e2]; simpl.
    + unfold send_log, sendevent. destruct (channel_send _ _) as [e3|]; simpl.
      * destruct (is_Exception e3); simpl; repeat split; try done.
        -- exists [Send (runtest_logmessage x)], [HandleError (RemoteMessageHandler.snapshot record msg)].
           rewrite <- app_assoc. eauto 10.
        -- exists [Send (runtest_logmessage x)], []. eauto 10.
      * repeat split; try done. exists [Send (runtest_logmessage x)], []. eauto 10.
    + destruct (is_Exception e2); simpl; repeat split; try done.
      * exists [], [HandleError (RemoteMessageHandler.snapshot record msg)]. eauto 10.
      * exists [], []. rewrite app_nil_r. eauto.
  - destruct (is_Exception e1); simpl; repeat split; try done.
    * exists [], [HandleError record]. eauto 10.
    * exists [], []. rewrite app_nil_r. eauto.
Qed.

End relay_more.

(** ** The further theorems at concrete inputs *)

Lemma commands_only_append_witness :
  let w := initial_world [Idx 1] in
  (∀ indices, RunTests [2; 0]%Z ≠ Steal indices) ∧
  @handle_command passing_env (RunTests [2; 0]%Z) w =
  (Ok tt, set_torun [Idx 1; Idx 2; Idx 0] w).
Proof.
  intros w.
  assert (∀ indices, RunTests [2; 0]%Z ≠ Steal indices) as Hc by done.
  split; [done|].
  by rewrite (@commands_only_append passing_env (RunTests [2; 0]%Z) w Hc).
Defined.

Lemma steal_of_nothing_pending_witness :
  let w := initial_world [Idx 0; SHUTDOWN_MARK; Idx 2] in
  Forall (.∉ [1; 5]%Z) (pending_indices (torun w)) ∧
  torun (@steal passing_env [1; 5]%Z w).2 = [Idx 0; SHUTDOWN_MARK; Idx 2] ∧
  trace (@steal passing_env [1; 5]%Z w).2 = [Send (unscheduled [])].
Proof.
  intros w.
  assert (Forall (.∉ [1; 5]%Z) (pending_indices (torun w))) as Hnone.
  { repeat constructor; apply (bool_decide_unpack _); by vm_compute. }
  split; [done|].
  destruct (@steal_of_nothing_pending passing_env [1; 5]%Z w Hnone) as [Hq Htr].
  by rewrite Hq, Htr.
Defined.

Lemma main_loop_is_bounded_by_the_queue_witness :
  let w := initial_world [Idx 0; Idx 1] in
  length (torun w) ≤ 2 ∧
  ((@pytest_runtestloop interrupted_env 2 w).1 = Ok true ∨
   (∃ e, (@pytest_runtestloop interrupted_env 2 w).1 = Raise e) ∨
   (@pytest_runtestloop interrupted_env 2 w).1 = Blocked).
Proof.
  intros w.
  assert (length (torun w) ≤ 2) as Hfuel by (simpl; lia).
  split; [done|].
  exact (@main_loop_is_bounded_by_the_queue interrupted_env 2 w Hfuel).
Defined.

Lemma runtests_all_then_shutdown_witness :
  let w := initial_world [] in
  let w2 := (@handle_command passing_env Shutdown
               (@handle_command passing_env RunTestsAll w).2).2 in
  (length (@items passing_env) < 4) ∧
  (@pytest_runtestloop passing_env 4 w2).1 = Ok true ∧
  torun (@pytest_runtestloop passing_env 4 w2).2 = [] ∧
  executed (trace (@pytest_runtestloop passing_env 4 w2).2) = sample_items.
Proof.
  intros w w2.
  assert (length (@items passing_env) < 4) as Hfuel by (simpl; lia).
  split; [done|].
  destruct (@runtests_all_then_shutdown passing_env 4 w
              (sample_channel_delivers _ _) (pickles_everything _) eq_refl Hfuel)
    as (Hr & Hq & new & Htr & Hex & _).
  split; [done|]. split; [done|].
  fold w2 in Htr. by rewrite Htr.
Defined.

Lemma entries_behind_the_mark_stay_witness :
  let w := initial_world [Idx 2; SHUTDOWN_MARK; Idx 0; SHUTDOWN_MARK] in
  SHUTDOWN_MARK ∈ torun w ∧ length (torun w) ≤ 4 ∧
  (@pytest_runtestloop passing_env 4 w).1 = Ok true ∧
  torun (@pytest_runtestloop passing_env 4 w).2 = [Idx 0; SHUTDOWN_MARK].
Proof.
  intros w.
  assert (SHUTDOWN_MARK ∈ torun w) as Hin by (right; left).
  assert (length (torun w) ≤ 4) as Hfuel by (simpl; lia).
  assert (Forall (@valid_entry passing_env) (torun w)) as Hvalid.
  { apply sample_entries_valid. repeat constructor; lia. }
  split; [done|]. split; [done|].
  destruct (@entries_behind_the_mark_stay passing_env 4 w
              (sample_channel_delivers _ _) (pickles_everything _) Hvalid Hfuel Hin)
    as (Hr & Hq & _).
  split; [done|]. by rewrite Hq.
Defined.

Lemma stolen_indices_are_not_run_witness :
  let w := initial_world [Idx 0; Idx 1; Idx 2; SHUTDOWN_MARK] in
  let w' := (@steal passing_env [1]%Z w).2 in
  SHUTDOWN_MARK ∈ torun w ∧ length (torun w) ≤ 4 ∧
  (@pytest_runtestloop passing_env 4 w').1 = Ok true ∧
  ∃ new, trace (@pytest_runtestloop passing_env 4 w').2 = trace w' ++ new ∧
         (completions new).*1 = [VInt 0; VInt 2].
Proof.
  intros w w'.
  assert (SHUTDOWN_MARK ∈ torun w) as Hin by (do 3 right; left).
  assert (length (torun w) ≤ 4) as Hfuel by (simpl; lia).
  assert (Forall (@valid_entry passing_env) (torun w)) as Hvalid.
  { apply sample_entries_valid. repeat constructor; lia. }
  split; [done|]. split; [done|].
  destruct (@stolen_indices_are_not_run passing_env [1]%Z 4 w
              (sample_channel_delivers _ _) (pickles_everything _) Hvalid Hfuel Hin)
    as (Hr & new & Htr & Hcompl & _).
  split; [done|]. exists new. split; [done|]. rewrite Hcompl. by vm_compute.
Defined.

Lemma get_more_work_bounds_witness :
  let w := initial_world [Idx (-1); Idx 3] in
  (@get_more_work passing_env w).1 =
    Ok (Some (Item "test_b.py::test_three" ["test_b.py"]), Idx (-1)) ∧
  (@get_more_work passing_env (@get_more_work passing_env w).2).1 = Raise IndexError ∧
  torun (@get_more_work passing_env (@get_more_work passing_env w).2).2 = [].
Proof.
  intros w.
  destruct (@get_more_work_bounds passing_env (-1) [Idx 3] w eq_refl)
    as (Hw & Hin & _).
  destruct Hin as (it & Hit & Hr); [simpl; lia|].
  split; [rewrite Hr; by injection Hit as <-|].
  destruct (@get_more_work_bounds passing_env 3 [] (@get_more_work passing_env w).2)
    as (Hw' & _ & Hout).
  { by rewrite Hw. }
  split; [apply Hout; simpl; lia|]. by rewrite Hw'.
Defined.

Lemma main_loop_stops_at_a_bad_first_index_witness :
  @pytest_runtestloop passing_env 3 (initial_world [Idx 3; Idx 0; SHUTDOWN_MARK]) =
  (Raise IndexError,
   World [Idx 0; SHUTDOWN_MARK] (Some (Idx 3)) (Some (Some (Idx 3))) [] [Get (Idx 3)]).
Proof.
  exact (@main_loop_stops_at_a_bad_first_index passing_env 2 3 [Idx 0; SHUTDOWN_MARK]
           (initial_world [Idx 3; Idx 0; SHUTDOWN_MARK]) eq_refl eq_refl).
Defined.

Lemma dummy_next_asks_again_after_a_bad_index_witness :
  let w := World [Idx 7; Idx 1; SHUTDOWN_MARK] None (Some (Some (Idx 0)))
             [DummyNextObj None None] [] in
  let w1 := World [Idx 1; SHUTDOWN_MARK] None (Some (Some (Idx 0)))
              [DummyNextObj None None] [Send runtest_need_work; Get (Idx 7)] in
  @ask passing_env 0 query_listchain w = (Raise IndexError, w1) ∧
  @ask passing_env 0 query_next_index w1 =
  (Ok (answer_index (Some (Idx 1))),
   World [SHUTDOWN_MARK] None (Some (Some (Idx 0)))
     [DummyNextObj (Some (Item "test_a.py::test_two" ["test_a.py"])) (Some (Idx 1))]
     [Send runtest_need_work; Get (Idx 7); Send runtest_need_work; Get (Idx 1)]).
Proof.
  intros w w1.
  assert (@valid_entry passing_env (Idx 1)) as Hv by (by eexists).
  exact (@dummy_next_asks_again_after_a_bad_index passing_env 0 (DummyNextObj None None)
           7 (Idx 1) [SHUTDOWN_MARK] query_listchain query_next_index w
           eq_refl eq_refl (sample_channel_delivers _ _) eq_refl eq_refl Hv).
Defined.

Lemma sample_dumps_only_refuses (v : pyval) (e : exn) :
  sample_dumps v = Raises e → e = DumpError.
Proof. unfold sample_dumps. destruct (transportable v); congruence. Qed.

Lemma serialized_keys_witness :
  ∃ result,
    serialize_warning_message sample_dumps sample_repr python3_details
      (sample_warning (VObject 1)) = Returns result ∧
    dom result =
      list_to_set ["message_str"; "message_module"; "message_class_name"; "message_args";
                   "category_module"; "category_class_name";
                   "filename"; "lineno"; "file"; "line"; "source"].
Proof.
  destruct (serialized_keys sample_dumps sample_repr python3_details
              (sample_warning (VObject 1)) sample_dumps_only_refuses) as (result & E & Hdom).
  exists result. split; [done|]. rewrite Hdom.
  apply (bool_decide_unpack _). by vm_compute.
Defined.

Lemma serialized_classes_witness :
  let wm := sample_warning (VTuple [VInt 1; VStr "x"]) in
  Forall (.∉ python3_details) ["message_module"; "message_class_name";
                               "category_module"; "category_class_name"] ∧
  ∃ result,
    serialize_warning_message sample_dumps sample_repr python3_details wm = Returns result ∧
    result !! "message_class_name" = Some (VStr "UserWarning") ∧
    result !! "category_module" = Some (VStr "builtins").
Proof.
  intros wm.
  assert (Forall (.∉ python3_details) ["message_module"; "message_class_name";
                                       "category_module"; "category_class_name"]) as Hfree.
  { repeat constructor; apply (bool_decide_unpack _); by vm_compute. }
  split; [done|].
  destruct (serialize_warning_message sample_dumps sample_repr python3_details wm)
    as [result|e] eqn:E.
  - exists result. split; [done|].
    destruct (serialized_classes sample_dumps sample_repr python3_details wm result Hfree E)
      as (_ & Hclass & Hmodule & _).
    by rewrite Hclass, Hmodule.
  - by vm_compute in E.
Defined.

Lemma serialized_values_are_sendable_witness :
  let wm := sample_warning (VObject 1) in
  ∃ result,
    serialize_warning_message sample_dumps sample_repr python3_details wm = Returns result ∧
    result !! "file" = Some (VStr "<_io.TextIOWrapper name='<stderr>'>") ∧
    (sendable sample_dumps (VStr "<_io.TextIOWrapper name='<stderr>'>") ∨
     ("file" = "message_str" ∧
      message wm = NotWarning (VStr "<_io.TextIOWrapper name='<stderr>'>"))).
Proof.
  intros wm.
  destruct (serialize_warning_message sample_dumps sample_repr python3_details wm)
    as [result|e] eqn:E.
  - assert (result !! "file" = Some (VStr "<_io.TextIOWrapper name='<stderr>'>")) as Hfile.
    { vm_compute in E. injection E as <-. by vm_compute. }
    exists result. split; [done|]. split; [done|].
    exact (serialized_values_are_sendable sample_dumps sample_repr python3_details
             wm result "file" _ E Hfile).
  - by vm_compute in E.
Defined.

Lemma modifyitems_twice_appends_twice_witness :
  ∃ c', pytest_collection_modifyitems true
          (pytest_collection_modifyitems true sample_collected) !! 2 = Some c' ∧
        nodeid (col_item c') = "test_b.py::test_three@net@net".
Proof.
  destruct (modifyitems_twice_appends_twice sample_collected 2 _ _ eq_refl eq_refl)
    as (c' & Hc' & Hid).
  exists c'. split; [done|]. by rewrite Hid.
Defined.
